(** * Study Battle Bot: score store, leaderboards, rank-change detection
      and the special-message ledger

    A shallow embedding of [src/api/database.py] (class [DatabaseManager]),
    of the handlers of [src/api/bot_handlers.py] (class [BotHandlers]) that
    read or write scores and rights, and of the helpers of
    [src/api/utils.py] they call, with the properties of the specification
    that concern them and further properties read off the code.

    Modelling conventions.
    - A table whose primary key is [user_id] is a finite map from the key to
      the remaining columns; a table with an [AUTOINCREMENT] id is the list
      of its rows in insertion order.
    - Python integers are unbounded [Z]; the store takes a bound parameter
      only within the signed 64-bit range, and a method whose parameter is
      outside it fails the way the code does: the exception is caught, the
      transaction is rolled back and the failure value is returned.  User
      ids, chat ids and right ids are ids Telegram or the store itself
      issued, and are within that range.
    - Every method is a function from the database before the call to the
      database after it and the returned value.  The only exception the
      modelled store can raise is "no such table" for
      [special_message_rights], which is created lazily; the methods catch
      it and return their failure value.
    - The clock ([CURRENT_TIMESTAMP], [DATE('now')]) is an argument.  The
      columns [registered_at], [last_updated] and [reset_time] are never
      read by any query and are left out.
    - [ORDER BY k DESC] is a stable sort of the rows in rowid order, which is
      what the store does for these queries; [LIMIT n] with a negative [n]
      applies no limit.
    - Sending a message to a chat never raises; sending without a chat
      does.  A handler returns what it sends as a structured value
      (recipient and payload); the wording of the texts is left out.
    - Strings are byte strings; [parse_number] is modelled on ASCII text. *)

From stdpp Require Import gmap strings list fin_maps sorting pretty.
From Stdlib Require Import ZArith Lia Ascii.

Local Open Scope Z_scope.

(** ** The fragment of SQL the queries use *)

Module Sql.

(** [COALESCE(a, b, c)] with a non-NULL last argument. *)
Definition coalesce {A : Type} (a b : option A) (c : A) : A :=
  match a with
  | Some x => x
  | None => match b with Some y => y | None => c end
  end.

Section OrderBy.
Context {A : Type} (key : A → Z).

(** [place x sorted] puts [x] in front of the first row whose key is not
    larger than the key of [x]. *)
Fixpoint place (x : A) (sorted : list A) : list A :=
  match sorted with
  | [] => [x]
  | y :: rest => if key x <? key y then y :: place x rest else x :: y :: rest
  end.

(** [ORDER BY key DESC]: rows with equal keys stay in scan order. *)
Definition order_by_desc (rows : list A) : list A := foldr place [] rows.

End OrderBy.

(** [LIMIT n], for an [n] the statement could be given: a negative [n]
    applies no limit. *)
Definition limit {A : Type} (n : Z) (rows : list A) : list A :=
  if n <? 0 then rows else take (Z.to_nat n) rows.

(** A full scan of a table keyed by an integer primary key: ascending
    rowid. *)
Definition scan {V : Type} (t : gmap Z V) : list (Z * V) :=
  order_by_desc (λ r, - r.1) (map_to_list t).

(** The range of an [INTEGER] of the store. *)
Definition min_int64 : Z := -9223372036854775808.
Definition max_int64 : Z := 9223372036854775807.

(** Whether [n] can be bound to a parameter of a statement; binding any
    other integer raises [OverflowError]. *)
Definition in_int64 (n : Z) : bool := (min_int64 <=? n) && (n <=? max_int64).

(** The id an [AUTOINCREMENT] column gives to the next row.  No row is ever
    deleted, so the sequence is the largest id present. *)
Definition next_id {A : Type} (id : A → Z) (rows : list A) : Z :=
  1 + foldr (λ r m, Z.max (id r) m) 0 rows.

End Sql.

(** ** database.py *)

Module Database.
Import Sql.

(** A row of [users], without its key. *)
Record user := mk_user {
  username : option string;
  first_name : option string;
  last_name : option string
}.

(** A row of [daily_reset_log]. *)
Record reset_entry := mk_reset_entry {
  reset_id : Z;
  reset_date : Z
}.

(** A row of [special_message_rights]. *)
Record message_right := mk_message_right {
  id : Z;
  user_id : Z;
  outranked_user_id : Z;
  old_position : Z;
  new_position : Z;
  used : bool;
  created_at : Z
}.

Record db := mk_db {
  users : gmap Z user;
  daily_stats : gmap Z Z;            (* user_id -> questions_solved *)
  lifetime_stats : gmap Z Z;         (* user_id -> total_questions *)
  daily_reset_log : list reset_entry;
  special_message_rights : option (list message_right)
                                     (* None: the table does not exist yet *)
}.

(** The database [init_database] creates on an empty file. *)
Definition init_database : db :=
  mk_db ∅ ∅ ∅ [] None.

(** [INSERT OR IGNORE INTO t (user_id, c) VALUES (k, v)]. *)
Definition insert_or_ignore (k v : Z) (t : gmap Z Z) : gmap Z Z :=
  match t !! k with
  | Some _ => t
  | None => <[k := v]> t
  end.

Definition register_user (user_id : Z) (username first_name last_name : option string)
    (d : db) : db * bool :=
  match users d !! user_id with
  | Some _ =>
      (mk_db (<[user_id := mk_user username first_name last_name]> (users d))
             (daily_stats d) (lifetime_stats d)
             (daily_reset_log d) (special_message_rights d),
       true)
  | None =>
      (mk_db (<[user_id := mk_user username first_name last_name]> (users d))
             (insert_or_ignore user_id 0 (daily_stats d))
             (insert_or_ignore user_id 0 (lifetime_stats d))
             (daily_reset_log d) (special_message_rights d),
       true)
  end.

(** [update_solved_questions].  The two places where a bound parameter can
    be out of range end in the [except] branch: nothing is committed and
    [False] is returned.  When only the daily sum computed inside the store
    leaves the 64-bit range upwards (which needs a daily count above the
    lifetime count), the store keeps a floating-point value near the sum; the
    model keeps the sum. *)
Definition update_solved_questions (user_id questions_count : Z) (d : db) : db * bool :=
  match users d !! user_id with
  | None => (d, false)
  | Some _ =>
      (* INSERT OR REPLACE INTO daily_stats ... COALESCE(..., 0) + ? *)
      if negb (in_int64 questions_count) then (d, false)
      else
        let daily1 :=
          <[user_id := default 0 (daily_stats d !! user_id) + questions_count]>
            (daily_stats d) in
        let current_lifetime := default 0 (lifetime_stats d !! user_id) in
        let new_lifetime := Z.max 0 (current_lifetime + questions_count) in
        (* INSERT OR REPLACE INTO lifetime_stats ... VALUES (?, ?, ...) *)
        if negb (in_int64 new_lifetime) then (d, false)
        else
          let lifetime1 := <[user_id := new_lifetime]> (lifetime_stats d) in
          (* Ensure daily stats don't go negative *)
          let daily2 :=
            match daily1 !! user_id with
            | Some current_daily =>
                if current_daily <? 0 then alter (λ _, 0) user_id daily1
                else daily1
            | None => daily1
            end in
          (mk_db (users d) daily2 lifetime1
                 (daily_reset_log d) (special_message_rights d),
           true)
  end.

(** The rows both leaderboard queries of a table select, before projection:
    [FROM stats s JOIN users u ON s.user_id = u.user_id
     WHERE s.count > 0 AND COALESCE(u.username, u.first_name, '') != 'Demo User'
     ORDER BY s.count DESC LIMIT ?].  A limit that cannot be bound raises, and
    the [except] branch of each builder returns the empty list. *)
Definition leaderboard_rows (stats : gmap Z Z) (us : gmap Z user) (lim : Z)
    : list (Z * user * Z) :=
  if negb (in_int64 lim) then [] else
  let joined :=
    omap (λ r : Z * Z, match us !! r.1 with
                       | Some u => Some (r.1, u, r.2)
                       | None => None
                       end) (scan stats) in
  let selected :=
    filter (λ r : Z * user * Z,
              0 < r.2 ∧
              coalesce (username r.1.2) (first_name r.1.2) "" ≠ "Demo User")
           joined in
  limit lim (order_by_desc (λ r : Z * user * Z, r.2) selected).

Definition display_name (u : user) : string :=
  coalesce (username u) (first_name u) "Unknown User".

Definition get_daily_leaderboard_with_ids (lim : Z) (d : db) : list (Z * string * Z) :=
  (λ r : Z * user * Z, (r.1.1, display_name r.1.2, r.2))
    <$> leaderboard_rows (daily_stats d) (users d) lim.

Definition get_daily_leaderboard (lim : Z) (d : db) : list (string * Z) :=
  (λ r : Z * user * Z, (display_name r.1.2, r.2))
    <$> leaderboard_rows (daily_stats d) (users d) lim.

Definition get_lifetime_leaderboard (lim : Z) (d : db) : list (string * Z) :=
  (λ r : Z * user * Z, (display_name r.1.2, r.2))
    <$> leaderboard_rows (lifetime_stats d) (users d) lim.

(** [(daily, lifetime)] of a user; [(0, 0)] when the user has no row. *)
Definition get_user_stats (user_id : Z) (d : db) : Z * Z :=
  match users d !! user_id with
  | Some _ =>
      (default 0 (daily_stats d !! user_id),
       default 0 (lifetime_stats d !! user_id))
  | None => (0, 0)
  end.

Definition reset_daily_stats (today : Z) (d : db) : db * bool :=
  (mk_db (users d)
         ((λ _, 0) <$> daily_stats d)
         (lifetime_stats d)
         (daily_reset_log d
            ++ [mk_reset_entry (next_id reset_id (daily_reset_log d)) today])
         (special_message_rights d),
   true).


(** The loop [for i, (uid, name, score) in enumerate(board, i): if uid ==
    user_id: pos = i; break]. *)
Fixpoint find_position (user_id : Z) (i : Z) (board : list (Z * string * Z))
    : option Z :=
  match board with
  | [] => None
  | (uid, _, _) :: rest =>
      if uid =? user_id then Some i else find_position user_id (i + 1) rest
  end.

Definition get_user_position_change (user_id : Z)
    (old_leaderboard new_leaderboard : list (Z * string * Z)) : option (Z * Z) :=
  let old_pos := find_position user_id 1 old_leaderboard in
  let new_pos := find_position user_id 1 new_leaderboard in
  match old_pos, new_pos with
  | Some o, Some n => if n <? o then Some (o, n) else None
  | None, Some n => Some (Z.of_nat (length old_leaderboard) + 1, n)
  | _, None => None
  end.

Definition store_special_message_right
    (user_id outranked_user_id old_pos new_pos : Z) (now : Z) (d : db) : db * bool :=
  (* CREATE TABLE IF NOT EXISTS special_message_rights *)
  let rows := default [] (special_message_rights d) in
  (mk_db (users d) (daily_stats d) (lifetime_stats d) (daily_reset_log d)
         (Some (rows ++ [mk_message_right (next_id id rows) user_id
                           outranked_user_id old_pos new_pos false now])),
   true).

Definition get_unused_message_right (user_id' : Z) (d : db) : option Z :=
  match special_message_rights d with
  | None => None
  | Some rows =>
      let unused :=
        filter (λ r, user_id r = user_id' ∧ used r = false) rows in
      match limit 1 (order_by_desc created_at unused) with
      | r :: _ => Some (id r)
      | [] => None
      end
  end.

Definition mark_used (right_id : Z) (r : message_right) : message_right :=
  if id r =? right_id
  then mk_message_right (id r) (user_id r) (outranked_user_id r)
                        (old_position r) (new_position r) true (created_at r)
  else r.

Definition use_message_right (right_id : Z) (d : db) : db * bool :=
  match special_message_rights d with
  | None => (d, false)
  | Some rows =>
      (mk_db (users d) (daily_stats d) (lifetime_stats d) (daily_reset_log d)
             (Some (mark_used right_id <$> rows)),
       true)
  end.

Definition get_message_right_details (right_id : Z) (d : db)
    : option (Z * Z * Z * Z) :=
  match special_message_rights d with
  | None => None
  | Some rows =>
      match filter (λ r, id r = right_id) rows with
      | r :: _ =>
          Some (user_id r, outranked_user_id r, old_position r, new_position r)
      | [] => None
      end
  end.

End Database.

(** ** bot_handlers.py: the overtake detection *)

Module BotHandlers.
Import Database.

(** The two attributes of [BotHandlers] the detection reads and writes. *)
Record handlers := mk_handlers {
  last_leaderboard : list (Z * string * Z);
  chat_id : option Z
}.

(** What the overtake notification and the stored right carry. *)
Record overtake := mk_overtake {
  acting_user : Z;
  outranked_id : Z;
  outranked_name : string;
  from_pos : Z;
  to_pos : Z;
  sent_to : Z
}.

(** The inner loop over [enumerate(new_leaderboard, i)]: whether it reaches
    the assignment to [outranked_user] (and its [break]). *)
Fixpoint ranked_below (uid new_pos : Z) (i : Z)
    (new_leaderboard : list (Z * string * Z)) : bool :=
  match new_leaderboard with
  | [] => false
  | (new_uid, _, _) :: rest =>
      if (uid =? new_uid) && (new_pos <? i) then true
      else ranked_below uid new_pos (i + 1) rest
  end.

(** The outer loop over [self.last_leaderboard]; [outranked_user] is the
    variable it assigns.  The loop has no [break] of its own. *)
Fixpoint find_outranked (user_id new_pos : Z)
    (new_leaderboard : list (Z * string * Z))
    (outranked_user : option (Z * string))
    (last_leaderboard : list (Z * string * Z)) : option (Z * string) :=
  match last_leaderboard with
  | [] => outranked_user
  | (uid, name, _) :: rest =>
      let outranked_user' :=
        if negb (uid =? user_id) && ranked_below uid new_pos 1 new_leaderboard
        then Some (uid, name)
        else outranked_user in
      find_outranked user_id new_pos new_leaderboard outranked_user' rest
  end.

(** [check_leaderboard_changes]: the new handler state, the new database
    and the notification sent, if any. *)
Definition check_leaderboard_changes (user_id : Z) (now : Z)
    (h : handlers) (d : db) : handlers * db * option overtake :=
  let new_leaderboard := get_daily_leaderboard_with_ids 10 d in
  let quiet := (mk_handlers new_leaderboard (chat_id h), d, None) in
  match last_leaderboard h with
  | [] => quiet
  | _ :: _ =>
      match get_user_position_change user_id (last_leaderboard h) new_leaderboard with
      | None => quiet
      | Some (old_pos, new_pos) =>
          match find_outranked user_id new_pos new_leaderboard None
                  (last_leaderboard h), chat_id h with
          | Some (outranked_id, outranked_name), Some chat =>
              if chat =? 0 then quiet
              else
                (mk_handlers new_leaderboard (chat_id h),
                 (store_special_message_right user_id outranked_id
                    old_pos new_pos now d).1,
                 Some (mk_overtake user_id outranked_id outranked_name
                         old_pos new_pos chat))
          | _, _ => quiet
          end
      end
  end.

(** [solved_command] once the argument has been parsed to
    [questions_count]. *)
Definition solved_command (user_id : Z) (username first_name last_name : option string)
    (questions_count : Z) (chat : Z) (now : Z)
    (h : handlers) (d : db) : handlers * db * option overtake :=
  let d1 := (register_user user_id username first_name last_name d).1 in
  let '(d2, success) := update_solved_questions user_id questions_count d1 in
  if success
  then check_leaderboard_changes user_id now
         (mk_handlers (last_leaderboard h) (Some chat)) d2
  else (h, d2, None).

End BotHandlers.

(** ** Sequences of operations *)

Module Trace.
Import Database.

(** The calls that write to the database. *)
Inductive operation :=
| RegisterUser (user_id : Z) (username first_name last_name : option string)
| UpdateSolvedQuestions (user_id questions_count : Z)
| ResetDailyStats (today : Z)
| StoreSpecialMessageRight (user_id outranked_user_id old_pos new_pos now : Z)
| UseMessageRight (right_id : Z).

Definition run (o : operation) (d : db) : db :=
  match o with
  | RegisterUser u un fn ln => (register_user u un fn ln d).1
  | UpdateSolvedQuestions u q => (update_solved_questions u q d).1
  | ResetDailyStats today => (reset_daily_stats today d).1
  | StoreSpecialMessageRight u v o n now =>
      (store_special_message_right u v o n now d).1
  | UseMessageRight r => (use_message_right r d).1
  end.

Definition run_all (os : list operation) (d : db) : db :=
  foldl (λ d o, run o d) d os.


End Trace.

(** ** The vocabulary of the specification *)

Module Spec.
Import Database BotHandlers.

Definition uid_of (e : Z * string * Z) : Z := e.1.1.

(** [r] is the 1-based position of [user_id] in [board]. *)
Definition is_rank (user_id : Z) (board : list (Z * string * Z)) (r : Z) : Prop :=
  ∃ i : nat,
    r = Z.of_nat i + 1 ∧
    (uid_of <$> board) !! i = Some user_id ∧
    ∀ j : nat, (j < i)%nat → (uid_of <$> board) !! j ≠ Some user_id.

Definition absent (user_id : Z) (board : list (Z * string * Z)) : Prop :=
  user_id ∉ uid_of <$> board.

(** [uid] is in the current snapshot, at a position greater than
    [new_pos]. *)
Definition now_below (new_pos : Z) (current : list (Z * string * Z))
    (uid : Z) : bool :=
  match find_position uid 1 current with
  | Some p => bool_decide (new_pos < p)
  | None => false
  end.

(** The displaced competitor as the specification describes it: the first
    entry of the previous snapshot, other than the acting user, whose
    position in the current snapshot is greater than the new rank. *)
Definition first_displaced (user_id new_pos : Z)
    (previous current : list (Z * string * Z)) : option (Z * string) :=
  match
    filter (λ e, uid_of e ≠ user_id ∧ now_below new_pos current (uid_of e))
           previous
  with
  | (uid, name, _) :: _ => Some (uid, name)
  | [] => None
  end.

(** Descending by score. *)
Definition sorted_desc {A : Type} (score : A → Z) (l : list A) : Prop :=
  StronglySorted (λ a b, score b ≤ score a) l.

Definition lower_ascii (c : ascii) : ascii :=
  let n := N_of_ascii c in
  if ((65 <=? n) && (n <=? 90))%N then ascii_of_N (n + 32) else c.

Fixpoint lower (s : string) : string :=
  match s with
  | EmptyString => EmptyString
  | String c s' => String (lower_ascii c) (lower s')
  end.

(** The demo-exclusion predicate of the specification: the display name,
    compared without regard to case, is the sentinel. *)
Definition is_demo_name (name : string) : Prop :=
  lower name = lower "Demo User".

(** The leaderboard contract as the specification words it. *)
Definition leaderboard_contract {A : Type} (name : A → string) (score : A → Z)
    (lim : Z) (board : list A) : Prop :=
  sorted_desc score board ∧
  Forall (λ e, 0 < score e) board ∧
  Forall (λ e, ¬ is_demo_name (name e)) board ∧
  Z.of_nat (length board) ≤ lim.

Definition daily_score (user_id : Z) (d : db) : Z := (get_user_stats user_id d).1.
Definition lifetime_score (user_id : Z) (d : db) : Z := (get_user_stats user_id d).2.



(** Every counter stored in the two score tables is non-negative. *)
Definition counters_nonneg (d : db) : Prop :=
  map_Forall (λ _ q, 0 ≤ q) (daily_stats d) ∧
  map_Forall (λ _ q, 0 ≤ q) (lifetime_stats d).

(** The leaderboard contract with the comparison the queries make: the
    display name is not the sentinel itself, and a negative limit does not
    truncate. *)
Definition leaderboard_contract_exact {A : Type} (name : A → string)
    (score : A → Z) (lim : Z) (board : list A) : Prop :=
  sorted_desc score board ∧
  Forall (λ e, 0 < score e) board ∧
  Forall (λ e, name e ≠ "Demo User") board ∧
  (lim < 0 ∨ Z.of_nat (length board) ≤ lim).

(** The rows of the ledger; none while the table does not exist. *)
Definition rights (d : db) : list message_right :=
  default [] (special_message_rights d).

Definition unconsumed_right_of (u : Z) (d : db) (r : message_right) : Prop :=
  r ∈ rights d ∧ user_id r = u ∧ used r = false.

(** [res] is the id of an unconsumed right of [u] that no other unconsumed
    right of [u] beats: a later creation time wins, and [tie chosen other]
    says which id wins between equal creation times. *)
Definition peek_result (tie : Z → Z → Prop) (u : Z) (d : db)
    (res : option Z) : Prop :=
  match res with
  | Some i =>
      ∃ r, unconsumed_right_of u d r ∧ id r = i ∧
        ∀ r', unconsumed_right_of u d r' →
          created_at r' < created_at r ∨
          (created_at r' = created_at r ∧ tie (id r) (id r'))
  | None => ∀ r, ¬ unconsumed_right_of u d r
  end.

Definition highest_id_wins (chosen other : Z) : Prop := other ≤ chosen.
Definition lowest_id_wins (chosen other : Z) : Prop := chosen ≤ other.

(** The ids of the ledger grow with the insertion order. *)
Definition ids_increasing (d : db) : Prop :=
  StronglySorted Z.lt (id <$> rights d).

(** Right [i] exists and every row carrying that id is consumed. *)
Definition consumed (i : Z) (d : db) : Prop :=
  i ∈ id <$> rights d ∧ ∀ r, r ∈ rights d → id r = i → used r = true.

End Spec.

(** ** Concrete databases and snapshots *)

Module Examples.
Import Database BotHandlers Trace Spec.

(** The snapshots of the specification's first detector example, with
    A = 1, B = 2 and C = 3. *)
Definition previous_abc : list (Z * string * Z) :=
  [(1, "A", 10); (2, "B", 8); (3, "C", 5)].
Definition current_bac : list (Z * string * Z) :=
  [(2, "B", 9); (1, "A", 10); (3, "C", 5)].

(** A, B and C registered, with 10, 8 and 5 questions today. *)
Definition db_abc : db :=
  run_all [RegisterUser 1 (Some "A") None None;
           RegisterUser 2 (Some "B") None None;
           RegisterUser 3 (Some "C") None None;
           UpdateSolvedQuestions 1 10;
           UpdateSolvedQuestions 2 8;
           UpdateSolvedQuestions 3 5] init_database.

(** The handler after it has shown the leaderboard of [db_abc] in chat 100. *)
Definition handlers_abc : handlers :=
  mk_handlers (get_daily_leaderboard_with_ids 10 db_abc) (Some 100).

(** A user without a handle whose first name is the sentinel in lower case,
    with 5 questions. *)
Definition db_lowercase_demo : db :=
  run_all [RegisterUser 1 None (Some "demo user") None;
           UpdateSolvedQuestions 1 5] init_database.

(** One registered user with no score yet. *)
Definition db_one_user : db :=
  run (RegisterUser 1 (Some "A") None None) init_database.

(** User 7 is granted two rights within the same second. *)
Definition db_two_rights : db :=
  run_all [StoreSpecialMessageRight 7 1 2 1 100;
           StoreSpecialMessageRight 7 2 3 2 100] init_database.

End Examples.


(** ** utils.py: the helpers the handlers call *)

Module Utils.

(** The fields of a Telegram [User] the bot reads. *)
Record tg_user := mk_tg_user {
  tg_id : Z;
  tg_username : option string;
  tg_first_name : option string;
  tg_last_name : option string
}.

(** [get_user_display_name]: a field counts when it is neither [None] nor
    the empty string. *)
Definition get_user_display_name (user : tg_user) : string :=
  match tg_username user with
  | Some (String c s) => "@" +:+ String c s
  | _ =>
      match tg_first_name user with
      | Some (String c s) => String c s
      | _ => "Unknown User"
      end
  end.

(** The ASCII characters [str.strip] removes: tab, line feed, vertical tab,
    form feed, carriage return, the four separators 28 to 31, and space. *)
Definition is_space (c : ascii) : bool :=
  let n := N_of_ascii c in
  (((9 <=? n) && (n <=? 13)) || ((28 <=? n) && (n <=? 32)))%N.

(** [\d] on ASCII text. *)
Definition is_digit (c : ascii) : bool :=
  let n := N_of_ascii c in ((48 <=? n) && (n <=? 57))%N.

Fixpoint lstrip (s : string) : string :=
  match s with
  | EmptyString => EmptyString
  | String c s' => if is_space c then lstrip s' else s
  end.

Fixpoint rstrip (s : string) : string :=
  match s with
  | EmptyString => EmptyString
  | String c s' =>
      match rstrip s' with
      | EmptyString => if is_space c then EmptyString else String c EmptyString
      | r => String c r
      end
  end.

Definition strip (s : string) : string := rstrip (lstrip s).

(** [int] on a string of decimal digits, most significant first; [None]
    when a character is not a digit. *)
Fixpoint digits_value (acc : Z) (s : string) : option Z :=
  match s with
  | EmptyString => Some acc
  | String c s' =>
      if is_digit c
      then digits_value (10 * acc + (Z.of_N (N_of_ascii c) - 48)) s'
      else None
  end.

(** [parse_number] on ASCII text: strip, match [^-?\d+$], convert.  The
    limit some interpreters put on the number of digits [int] accepts is not
    modelled. *)
Definition parse_number (input_str : string) : option Z :=
  match strip input_str with
  | EmptyString => None
  | String c rest =>
      if Ascii.eqb c "-"
      then match rest with
           | EmptyString => None
           | _ => Z.opp <$> digits_value 0 rest
           end
      else digits_value 0 (String c rest)
  end.

End Utils.

(** ** bot_handlers.py: the other handlers *)

Module Commands.
Import Database BotHandlers Utils.

(** The attributed broadcast [handle_special_message] sends; the
    confirmation to the sender goes out with it. *)
Record special_message := mk_special_message {
  special_to : option Z;
  special_from : string;
  special_outranked : string;
  special_text : string
}.

(** The loop that looks the outranked user's name up in
    [self.last_leaderboard]. *)
Fixpoint outranked_name_in (outranked_user_id : Z)
    (board : list (Z * string * Z)) : string :=
  match board with
  | [] => "Unknown User"
  | (uid, name, _) :: rest =>
      if uid =? outranked_user_id then name
      else outranked_name_in outranked_user_id rest
  end.

(** [handle_special_message].  The broadcast goes to [self.chat_id] before
    the right is marked used, inside one [try]: without a remembered chat the
    send raises, and the [except] branch leaves the right unconsumed. *)
Definition handle_special_message (user : tg_user) (message : string)
    (h : handlers) (d : db) : db * option special_message :=
  match get_unused_message_right (tg_id user) d with
  | None => (d, None)
  | Some right_id =>
      if right_id =? 0 then (d, None)
      else
        match get_message_right_details right_id d with
        | None => (d, None)
        | Some (_, outranked_user_id, _, _) =>
            match chat_id h with
            | None => (d, None)
            | Some chat =>
                ((use_message_right right_id d).1,
                 Some (mk_special_message (Some chat)
                         (get_user_display_name user)
                         (outranked_name_in outranked_user_id
                            (last_leaderboard h))
                         message))
            end
        end
  end.

(** [handle_message]: only a non-empty text that is not a command goes on
    to [handle_special_message]. *)
Definition handle_message (user : tg_user) (text : string)
    (h : handlers) (d : db) : db * option special_message :=
  match text with
  | EmptyString => (d, None)
  | String "/" _ => (d, None)
  | _ => handle_special_message user text h d
  end.

Inductive champion_message :=
| ChampionIs (champion_name : string)
| NoParticipants.

(** [send_daily_champion_message]: the chat written to and what is
    announced; nothing without a remembered chat. *)
Definition send_daily_champion_message (h : handlers) (d : db)
    : option (Z * champion_message) :=
  match chat_id h with
  | None => None
  | Some chat =>
      if chat =? 0 then None
      else
        match get_daily_leaderboard 1 d with
        | (champion_name, _) :: _ => Some (chat, ChampionIs champion_name)
        | [] => Some (chat, NoParticipants)
        end
  end.

Inductive reset_reply := ResetDenied | ResetDone | ResetFailed.

(** [reset_daily_command]; [admin_ids] is the list parsed from the
    environment variable [ADMIN_IDS]. *)
Definition reset_daily_command (admin_ids : list Z) (user_id : Z) (today : Z)
    (d : db) : db * reset_reply :=
  if bool_decide (user_id ∉ admin_ids) && bool_decide (admin_ids ≠ [])
  then (d, ResetDenied)
  else
    let '(d', success) := reset_daily_stats today d in
    (d', if success then ResetDone else ResetFailed).



End Commands.

(** ** Further vocabulary *)

Module Vocabulary.
Import Sql Database BotHandlers Trace Spec.

(** User [u], with row [x] and score [q] in [stats], passes the filter of
    the leaderboard queries. *)
Definition eligible (stats : gmap Z Z) (us : gmap Z user)
    (u : Z) (x : user) (q : Z) : Prop :=
  us !! u = Some x ∧ stats !! u = Some q ∧ 0 < q ∧
  coalesce (username x) (first_name x) "" ≠ "Demo User".

(** The store takes the update of a lifetime count [lifetime] by
    [questions_count]: the delta and the new lifetime count can both be
    bound. *)
Definition storable (lifetime questions_count : Z) : bool :=
  in_int64 questions_count && in_int64 (Z.max 0 (lifetime + questions_count)).

(** Every stats row belongs to a registered user and every registered user
    has both rows. *)
Definition stats_integrity (d : db) : Prop :=
  dom (daily_stats d) = dom (users d) ∧ dom (lifetime_stats d) = dom (users d).

(** [r'] is [r] up to consumption: every column but [used] is the same, and
    a consumed right is still consumed. *)
Definition same_right (r r' : message_right) : Prop :=
  id r' = id r ∧ user_id r' = user_id r ∧
  outranked_user_id r' = outranked_user_id r ∧
  old_position r' = old_position r ∧ new_position r' = new_position r ∧
  created_at r' = created_at r ∧
  (used r = true → used r' = true).

(** The entry of the previous snapshot passes the test of the loops of
    [check_leaderboard_changes]. *)
Definition passed (user_id new_pos : Z) (new_leaderboard : list (Z * string * Z))
    (e : Z * string * Z) : Prop :=
  uid_of e ≠ user_id ∧
  ∃ k : nat, (uid_of <$> new_leaderboard) !! k = Some (uid_of e) ∧
             new_pos < 1 + Z.of_nat k.

End Vocabulary.

(** ** Further concrete inputs *)

Module MoreExamples.
Import Database BotHandlers Trace Spec Examples Utils.

(** [db_abc] after B has been granted a right for passing A. *)
Definition db_abc_right : db :=
  run (StoreSpecialMessageRight 2 1 2 1 100) db_abc.

Definition user_b : tg_user := mk_tg_user 2 (Some "B") None None.

End MoreExamples.

Import Sql Database BotHandlers Trace Spec Examples.
Import Utils Commands Vocabulary MoreExamples.

(** ** Facts about the SQL fragment *)

Section StronglySortedFacts.
Context {A : Type} (R : relation A).

Lemma strongly_sorted_sublist (l k : list A) :
  l `sublist_of` k → StronglySorted R k → StronglySorted R l.
Proof.
  intros Hsub Hk. revert l Hsub.
  induction Hk as [|y k Hk IH Hy]; intros l Hsub.
  - apply sublist_nil_r in Hsub as ->. constructor.
  - apply sublist_cons_r in Hsub as [Hsub|(l' & -> & Hsub)]; [by apply IH|].
    constructor; [by apply IH|].
    eapply Forall_forall. intros z Hz.
    eapply Forall_forall in Hy; [exact Hy|].
    eapply sublist_subseteq; [exact Hsub|exact Hz].
Qed.

Lemma strongly_sorted_lookup (l : list A) (i j : nat) (x y : A) :
  StronglySorted R l → l !! i = Some x → l !! j = Some y → (i < j)%nat → R x y.
Proof.
  intros Hl. revert i j. induction Hl as [|z l Hl IH Hz]; intros i j Hi Hj Hlt.
  - done.
  - destruct j as [|j]; [lia|]. destruct i as [|i]; simpl in *.
    + simplify_eq. eapply Forall_forall in Hz; [exact Hz|].
      by eapply list_elem_of_lookup_2.
    + eapply IH; [exact Hi|exact Hj|lia].
Qed.

End StronglySortedFacts.

Section OrderByFacts.
Context {A : Type} (key : A → Z).

Lemma place_perm (x : A) (l : list A) : place key x l ≡ₚ x :: l.
Proof.
  induction l as [|y l IH]; simpl; [done|].
  destruct (key x <? key y); [|done].
  rewrite IH. apply Permutation_swap.
Qed.

Lemma order_by_desc_perm (l : list A) : order_by_desc key l ≡ₚ l.
Proof.
  induction l as [|x l IH]; simpl; [done|].
  rewrite place_perm. by f_equiv.
Qed.

Lemma place_sorted (x : A) (l : list A) :
  sorted_desc key l → sorted_desc key (place key x l).
Proof.
  unfold sorted_desc. induction 1 as [|y l Hl IH Hy]; simpl.
  - repeat constructor.
  - destruct (Z.ltb_spec (key x) (key y)) as [Hlt|Hge].
    + constructor; [done|].
      rewrite place_perm. constructor; [lia|done].
    + constructor; [by constructor|].
      constructor; [done|].
      eapply Forall_impl; [exact Hy|]. simpl. intros z Hz. lia.
Qed.

Lemma order_by_desc_sorted (l : list A) : sorted_desc key (order_by_desc key l).
Proof.
  induction l as [|x l IH]; simpl; [constructor|].
  by apply place_sorted.
Qed.

(** The first row of the sorted list: no row has a larger key, and no row
    with the same key comes earlier in the scan. *)
Lemma order_by_desc_first (l : list A) (r : A) (rest : list A) :
  order_by_desc key l = r :: rest →
  ∃ i : nat, l !! i = Some r ∧
    ∀ (j : nat) (y : A), l !! j = Some y →
      key y < key r ∨ (key y = key r ∧ (i ≤ j)%nat).
Proof.
  revert r rest. induction l as [|x l IH]; intros r rest; simpl; [done|].
  destruct (order_by_desc key l) as [|y s] eqn:Hs; simpl.
  - intros [= <- <-]. exists 0%nat. split; [done|].
    assert (l = []) as ->.
    { apply Permutation_nil_r. by rewrite <- Hs, order_by_desc_perm. }
    intros [|j] z; simpl; [|done]. intros [= ->]. right. split; [done|lia].
  - destruct (IH y s eq_refl) as (i & Hi & Hmax).
    destruct (Z.ltb_spec (key x) (key y)) as [Hlt|Hge]; intros [= <- <-].
    + exists (S i). split; [done|].
      intros [|j] z; simpl.
      * intros [= ->]. by left.
      * intros Hz. destruct (Hmax j z Hz) as [?|[? ?]]; [by left|].
        right. split; [done|lia].
    + exists 0%nat. split; [done|].
      intros [|j] z; simpl.
      * intros [= ->]. right. split; [done|lia].
      * intros Hz. destruct (Hmax j z Hz) as [?|[? ?]].
        -- destruct (decide (key z = key x)); [right; split; [done|lia]|left; lia].
        -- destruct (decide (key z = key x)); [right; split; [done|lia]|left; lia].
Qed.

Lemma order_by_desc_nil (l : list A) : order_by_desc key l = [] → l = [].
Proof.
  intros H. apply Permutation_nil_r. by rewrite <- H, order_by_desc_perm.
Qed.

Lemma sorted_desc_sublist (l k : list A) :
  l `sublist_of` k → sorted_desc key k → sorted_desc key l.
Proof.
  unfold sorted_desc. apply strongly_sorted_sublist.
Qed.

Lemma limit_sublist (n : Z) (l : list A) : limit n l `sublist_of` l.
Proof.
  unfold limit. destruct (n <? 0); [done|apply sublist_take].
Qed.

Lemma limit_length (n : Z) (l : list A) :
  n < 0 ∨ Z.of_nat (length (limit n l)) ≤ n.
Proof.
  unfold limit. destruct (Z.ltb_spec n 0); [by left|right].
  rewrite length_take. lia.
Qed.

End OrderByFacts.

(** ** The leaderboard builder *)

Lemma display_name_not_demo (u : user) :
  coalesce (username u) (first_name u) "" ≠ "Demo User" →
  display_name u ≠ "Demo User".
Proof.
  unfold display_name, coalesce.
  destruct (username u); [done|]. destruct (first_name u); [done|].
  intros _. discriminate.
Qed.


Lemma leaderboard_rows_sorted stats us lim :
  sorted_desc (λ r : Z * user * Z, r.2) (leaderboard_rows stats us lim).
Proof.
  unfold leaderboard_rows. destruct (in_int64 lim); simpl; [|constructor].
  eapply sorted_desc_sublist; [apply limit_sublist|apply order_by_desc_sorted].
Qed.

Lemma leaderboard_rows_selected stats us lim :
  Forall (λ r : Z * user * Z, 0 < r.2 ∧ display_name r.1.2 ≠ "Demo User")
         (leaderboard_rows stats us lim).
Proof.
  unfold leaderboard_rows. destruct (in_int64 lim); simpl; [|constructor].
  apply Forall_forall. intros r Hr.
  eapply sublist_subseteq in Hr; [|apply limit_sublist].
  rewrite order_by_desc_perm in Hr.
  apply list_elem_of_filter in Hr as [[Hpos Hname] _].
  split; [done|]. by apply display_name_not_demo.
Qed.

Lemma leaderboard_rows_length stats us lim :
  lim < 0 ∨ Z.of_nat (length (leaderboard_rows stats us lim)) ≤ lim.
Proof.
  unfold leaderboard_rows. destruct (in_int64 lim) eqn:Hlim; simpl.
  - apply limit_length.
  - destruct (Z.ltb_spec lim 0); [by left|right]. simpl. lia.
Qed.

(** Any projection of the selected rows that keeps the display name and the
    score satisfies the contract. *)
Lemma leaderboard_projection {B : Type} (f : Z * user * Z → B)
    (name : B → string) (score : B → Z) stats us lim :
  (∀ r, name (f r) = display_name r.1.2) →
  (∀ r, score (f r) = r.2) →
  leaderboard_contract_exact name score lim (f <$> leaderboard_rows stats us lim).
Proof.
  intros Hname Hscore. unfold leaderboard_contract_exact. split_and!.
  - unfold sorted_desc.
    eapply (StronglySorted_fmap f (λ a b : Z * user * Z, b.2 ≤ a.2));
      [|apply leaderboard_rows_sorted].
    intros a b. by rewrite !Hscore.
  - apply Forall_fmap. eapply Forall_impl; [apply leaderboard_rows_selected|].
    intros r [? _]. simpl. by rewrite Hscore.
  - apply Forall_fmap. eapply Forall_impl; [apply leaderboard_rows_selected|].
    intros r [_ ?]. simpl. by rewrite Hname.
  - rewrite length_fmap. apply leaderboard_rows_length.
Qed.

(** C3, as the code has it: for every limit, both variants of the daily
    leaderboard are sorted in descending order by score, contain no entry
    with score ≤ 0, contain no entry whose display name is exactly
    "Demo User", and have length ≤ limit when the limit is not negative; the
    display variant is the id-bearing one without its ids. *)
Theorem daily_leaderboard_contract (lim : Z) (d : db) :
  leaderboard_contract_exact (λ e : Z * string * Z, e.1.2) (λ e, e.2) lim
    (get_daily_leaderboard_with_ids lim d) ∧
  leaderboard_contract_exact (λ e : string * Z, e.1) (λ e, e.2) lim
    (get_daily_leaderboard lim d) ∧
  get_daily_leaderboard lim d
    = (λ e : Z * string * Z, (e.1.2, e.2)) <$> get_daily_leaderboard_with_ids lim d.
Proof.
  split_and!.
  - by apply leaderboard_projection.
  - by apply leaderboard_projection.
  - unfold get_daily_leaderboard, get_daily_leaderboard_with_ids.
    by rewrite <- list_fmap_compose.
Qed.

(** X1. [get_lifetime_leaderboard] runs the same query on the lifetime
    table: its result is sorted in descending order by score, has only
    positive scores, no display name that is exactly "Demo User", and at most
    [limit] entries when the limit is not negative. *)
Lemma lifetime_leaderboard_contract (lim : Z) (d : db) :
  leaderboard_contract_exact (λ e : string * Z, e.1) (λ e, e.2) lim
    (get_lifetime_leaderboard lim d).
Proof. by apply leaderboard_projection. Qed.

(** C3 as stated fails: a user whose first name is "demo user" is listed,
    and that name is the sentinel under case-insensitive comparison. *)
Lemma lowercase_demo_user_is_listed :
  get_daily_leaderboard_with_ids 10 db_lowercase_demo = [(1, "demo user", 5)] ∧
  get_daily_leaderboard 10 db_lowercase_demo = [("demo user", 5)] ∧
  ¬ leaderboard_contract (λ e : Z * string * Z, e.1.2) (λ e, e.2) 10
      (get_daily_leaderboard_with_ids 10 db_lowercase_demo) ∧
  ¬ leaderboard_contract (λ e : string * Z, e.1) (λ e, e.2) 10
      (get_daily_leaderboard 10 db_lowercase_demo).
Proof.
  assert (get_daily_leaderboard_with_ids 10 db_lowercase_demo
          = [(1, "demo user", 5)]) as Hids by (by vm_compute).
  assert (get_daily_leaderboard 10 db_lowercase_demo
          = [("demo user", 5)]) as Hshow by (by vm_compute).
  rewrite Hids, Hshow. split_and!; [done|done|..].
  - intros (_ & _ & Hdemo & _). inversion_clear Hdemo as [|? ? Hname _].
    apply Hname. reflexivity.
  - intros (_ & _ & Hdemo & _). inversion_clear Hdemo as [|? ? Hname _].
    apply Hname. reflexivity.
Qed.

(** A negative limit does not truncate. *)
Lemma negative_limit_lists_everyone :
  get_daily_leaderboard (-1) db_abc = [("A", 10); ("B", 8); ("C", 5)].
Proof. by vm_compute. Qed.

(** ** The rank-change detector *)

Lemma find_position_Some (u i : Z) (board : list (Z * string * Z)) (p : Z) :
  find_position u i board = Some p ↔
  ∃ k : nat, p = i + Z.of_nat k ∧
    (uid_of <$> board) !! k = Some u ∧
    ∀ j : nat, (j < k)%nat → (uid_of <$> board) !! j ≠ Some u.
Proof.
  revert i. induction board as [|[[uid name] score] board IH]; intros i; simpl.
  - split; [done|]. by intros (k & _ & ? & _).
  - destruct (Z.eqb_spec uid u) as [->|Hne].
    + split.
      * intros [= <-]. exists 0%nat. split_and!; [lia|done|lia].
      * intros (k & -> & Hk & Hfirst). destruct k as [|k]; [f_equal; lia|].
        by destruct (Hfirst 0%nat ltac:(lia)).
    + rewrite IH. split.
      * intros (k & -> & Hk & Hfirst). exists (S k). split_and!; [lia|done|].
        intros [|j] Hj; simpl; [unfold uid_of; simpl; congruence|].
        apply Hfirst. lia.
      * intros (k & -> & Hk & Hfirst). destruct k as [|k].
        { simpl in Hk. unfold uid_of in Hk. simpl in Hk. congruence. }
        exists k. split_and!; [lia|done|].
        intros j Hj. apply (Hfirst (S j)). lia.
Qed.

Lemma find_position_None (u i : Z) (board : list (Z * string * Z)) :
  find_position u i board = None ↔ absent u board.
Proof.
  unfold absent. revert i.
  induction board as [|[[uid name] score] board IH]; intros i; simpl.
  - split; [|done]. intros _. apply not_elem_of_nil.
  - rewrite not_elem_of_cons. unfold uid_of at 1. simpl.
    destruct (Z.eqb_spec uid u) as [->|Hne].
    + split; [done|]. by intros [? _].
    + rewrite IH. split; [by split|by intros [_ ?]].
Qed.

Lemma find_position_rank (u : Z) (board : list (Z * string * Z)) (r : Z) :
  find_position u 1 board = Some r ↔ is_rank u board r.
Proof.
  rewrite find_position_Some. unfold is_rank.
  split; intros (k & -> & ?); exists k; (split; [lia|done]).
Qed.

(** C2: the detector returns [(oldRank, newRank)] exactly when the acting
    user is in both snapshots with a strictly smaller 1-based position in
    the current one, returns [(length of the previous snapshot + 1, newRank)]
    exactly when the user is absent from the previous snapshot and present
    in the current one, and returns nothing in every other case: absent from
    the current snapshot, or rank unchanged or worsened. *)
Theorem get_user_position_change_iff (user_id : Z)
    (old_leaderboard new_leaderboard : list (Z * string * Z)) :
  (∀ o n : Z,
     get_user_position_change user_id old_leaderboard new_leaderboard = Some (o, n) ↔
     (is_rank user_id old_leaderboard o ∧ is_rank user_id new_leaderboard n ∧ n < o) ∨
     (absent user_id old_leaderboard ∧ is_rank user_id new_leaderboard n ∧
      o = Z.of_nat (length old_leaderboard) + 1)) ∧
  (get_user_position_change user_id old_leaderboard new_leaderboard = None ↔
     absent user_id new_leaderboard ∨
     ∃ o n : Z, is_rank user_id old_leaderboard o ∧
                is_rank user_id new_leaderboard n ∧ o ≤ n).
Proof.
  unfold get_user_position_change.
  destruct (find_position user_id 1 old_leaderboard) as [o0|] eqn:Hold;
    destruct (find_position user_id 1 new_leaderboard) as [n0|] eqn:Hnew.
  - (* in both snapshots *)
    split.
    + intros o n. rewrite <- !find_position_rank, <- (find_position_None user_id 1), Hold, Hnew.
      destruct (Z.ltb_spec n0 o0); split.
      * intros [= <- <-]. by left.
      * intros [([= ->] & [= ->] & _)|([=] & _)]. done.
      * done.
      * intros [([= ->] & [= ->] & ?)|([=] & _)]. lia.
    + rewrite <- (find_position_None user_id 1), Hnew.
      destruct (Z.ltb_spec n0 o0); split.
      * done.
      * intros [[=]|(o & n & Ho & Hn & ?)].
        apply find_position_rank in Ho, Hn. simplify_eq. lia.
      * intros _. right. exists o0, n0. by rewrite <- !find_position_rank.
      * done.
  - (* only in the previous snapshot *)
    split.
    + intros o n. rewrite <- !find_position_rank, <- (find_position_None user_id 1), Hold, Hnew.
      split; [done|]. by intros [(_ & [=] & _)|(_ & [=] & _)].
    + rewrite <- (find_position_None user_id 1). split; [by left|done].
  - (* a new entrant *)
    split.
    + intros o n. rewrite <- !find_position_rank, <- (find_position_None user_id 1), Hold, Hnew.
      split.
      * intros [= <- <-]. by right.
      * intros [([=] & _)|(_ & [= ->] & ->)]. done.
    + rewrite <- (find_position_None user_id 1), Hnew. split; [done|].
      intros [[=]|(o & n & Ho & _)].
      apply find_position_rank in Ho. congruence.
  - (* in neither snapshot *)
    split.
    + intros o n. rewrite <- !find_position_rank, <- (find_position_None user_id 1), Hold, Hnew.
      split; [done|]. by intros [(_ & [=] & _)|(_ & [=] & _)].
    + rewrite <- (find_position_None user_id 1). split; [by left|done].
Qed.

(** The specification's examples of the detector. *)
Lemma get_user_position_change_examples :
  get_user_position_change 2 previous_abc current_bac = Some (2, 1) ∧
  get_user_position_change 3 [(1, "A", 10); (2, "B", 8)]
      [(1, "A", 10); (3, "C", 9); (2, "B", 8)] = Some (3, 2) ∧
  get_user_position_change 1 [(1, "A", 10); (2, "B", 8)]
      [(1, "A", 11); (2, "B", 8)] = None.
Proof. by vm_compute. Qed.

(** ** The displaced competitor *)

Lemma ranked_below_spec (uid new_pos i : Z) (current : list (Z * string * Z)) :
  ranked_below uid new_pos i current = true ↔
  ∃ k : nat, (uid_of <$> current) !! k = Some uid ∧ new_pos < i + Z.of_nat k.
Proof.
  revert i. induction current as [|[[new_uid new_name] new_score] current IH];
    intros i; simpl.
  - split; [done|]. by intros (k & ? & _).
  - destruct ((uid =? new_uid) && (new_pos <? i)) eqn:Hhit.
    + apply andb_true_iff in Hhit as [->%Z.eqb_eq Hlt%Z.ltb_lt].
      split; [|done]. intros _. exists 0%nat. split; [done|lia].
    + rewrite IH. split.
      * intros (k & Hk & Hlt). exists (S k). split; [done|lia].
      * intros ([|k] & Hk & Hlt).
        -- simpl in Hk. unfold uid_of in Hk. simpl in Hk. simplify_eq.
           apply andb_false_iff in Hhit as [Hne%Z.eqb_neq|Hge%Z.ltb_ge]; [done|lia].
        -- exists k. split; [done|lia].
Qed.

(** When no user is listed twice in the current snapshot, the inner loop
    tests what the specification asks: the user's position in the current
    snapshot is greater than the new rank. *)
Lemma ranked_below_now_below (uid new_pos : Z) (current : list (Z * string * Z)) :
  NoDup (uid_of <$> current) →
  ranked_below uid new_pos 1 current = now_below new_pos current uid.
Proof.
  intros Hnodup. apply eq_true_iff_eq. rewrite ranked_below_spec.
  unfold now_below.
  destruct (find_position uid 1 current) as [p|] eqn:Hp.
  - apply find_position_Some in Hp as (k & -> & Hk & _).
    rewrite bool_decide_eq_true. split.
    + intros (k' & Hk' & Hlt).
      by rewrite (NoDup_lookup _ _ _ _ Hnodup Hk Hk').
    + intros Hlt. by exists k.
  - apply find_position_None in Hp. split; [|done].
    intros (k & Hk & _). destruct Hp. by eapply list_elem_of_lookup_2.
Qed.

(** The outer loop keeps the last entry that passes the test, not the
    first. *)
Lemma find_outranked_last (user_id new_pos : Z)
    (new_leaderboard previous : list (Z * string * Z)) (acc : option (Z * string)) :
  find_outranked user_id new_pos new_leaderboard acc previous =
  match last (filter (λ e, uid_of e ≠ user_id ∧
                           ranked_below (uid_of e) new_pos 1 new_leaderboard)
                     previous) with
  | Some e => Some (e.1.1, e.1.2)
  | None => acc
  end.
Proof.
  revert acc. induction previous as [|[[uid name] score] previous IH];
    intros acc; simpl; [done|].
  rewrite IH, filter_cons. change (uid_of (uid, name, score)) with uid.
  destruct (Z.eqb_spec uid user_id) as [->|Hne]; simpl.
  - rewrite decide_False by (by intros [? _]). done.
  - destruct (ranked_below uid new_pos 1 new_leaderboard) eqn:Hbelow; simpl.
    + rewrite decide_True by done. rewrite last_cons.
      by destruct (last _).
    + rewrite decide_False by (by intros [_ ?]). done.
Qed.

(** C1 fails on the code.  On the specification's own example (previous
    [A:10, B:8, C:5], current [B:9, A:10, C:5], acting user B, new rank 1) the
    first entry of the previous snapshot now ranked below B is A, and the
    loop reports C, the last one.  The same happens through [solved_command]:
    with A, B, C at 10, 8, 5 and B logging 3 more questions, the overtake
    sent names C. *)
Theorem displaced_competitor_is_last_match :
  get_user_position_change 2 previous_abc current_bac = Some (2, 1) ∧
  first_displaced 2 1 previous_abc current_bac = Some (1, "A") ∧
  find_outranked 2 1 current_bac None previous_abc = Some (3, "C") ∧
  (solved_command 2 (Some "B") None None 3 100 0 handlers_abc db_abc).2
    = Some (mk_overtake 2 3 "C" 2 1 100) ∧
  first_displaced 2 1 (last_leaderboard handlers_abc)
    (get_daily_leaderboard_with_ids 10
       (update_solved_questions 2 3 db_abc).1) = Some (1, "A").
Proof. by vm_compute. Qed.

(** ** The score store *)

(** C5: for a user id that is not in [users], [update_solved_questions]
    returns [False] and leaves the database, hence every daily and lifetime
    counter, as it was. *)
Theorem update_unknown_user (user_id questions_count : Z) (d : db) :
  users d !! user_id = None →
  update_solved_questions user_id questions_count d = (d, false).
Proof. intros Hunknown. unfold update_solved_questions. by rewrite Hunknown. Qed.

Lemma update_unknown_user_witness :
  update_solved_questions 2 5 db_one_user = (db_one_user, false).
Proof. apply update_unknown_user. reflexivity. Defined.

Lemma update_known_user (user_id questions_count : Z) (d : db) :
  is_Some (users d !! user_id) →
  storable (default 0 (lifetime_stats d !! user_id)) questions_count = true →
  let d' := (update_solved_questions user_id questions_count d).1 in
  (update_solved_questions user_id questions_count d).2 = true ∧
  users d' = users d ∧
  lifetime_stats d' =
    <[user_id := Z.max 0 (default 0 (lifetime_stats d !! user_id) + questions_count)]>
      (lifetime_stats d) ∧
  daily_stats d' =
    <[user_id := Z.max 0 (default 0 (daily_stats d !! user_id) + questions_count)]>
      (daily_stats d).
Proof.
  intros [x Hx] [Hq Hnew]%andb_true_iff. unfold update_solved_questions.
  rewrite Hx, Hq, Hnew. simpl.
  split_and!; [done..|].
  rewrite lookup_insert_eq.
  destruct (Z.ltb_spec (default 0 (daily_stats d !! user_id) + questions_count) 0).
  - apply map_eq. intros v. destruct (decide (v = user_id)) as [->|Hne].
    + rewrite lookup_alter_eq, !lookup_insert_eq. simpl. f_equal. lia.
    + by rewrite lookup_alter_ne, !lookup_insert_ne.
  - f_equal. lia.
Qed.

Lemma update_not_storable (user_id questions_count : Z) (d : db) :
  storable (default 0 (lifetime_stats d !! user_id)) questions_count = false →
  update_solved_questions user_id questions_count d = (d, false).
Proof.
  intros Hno. unfold update_solved_questions, storable in *.
  destruct (users d !! user_id); [|done].
  destruct (in_int64 questions_count); simpl in *; [|done].
  by rewrite Hno.
Qed.

(** An update either fails and changes nothing, or is the stored update of a
    registered user. *)
Lemma update_solved_questions_cases (user_id questions_count : Z) (d : db) :
  update_solved_questions user_id questions_count d = (d, false) ∨
  (is_Some (users d !! user_id) ∧
   storable (default 0 (lifetime_stats d !! user_id)) questions_count = true).
Proof.
  destruct (users d !! user_id) as [x|] eqn:Hx.
  - destruct (storable (default 0 (lifetime_stats d !! user_id)) questions_count)
      eqn:Hok.
    + right. split; [by eexists|done].
    + left. by apply update_not_storable.
  - left. unfold update_solved_questions. by rewrite Hx.
Qed.












Lemma insert_or_ignore_nonneg (k : Z) (t : gmap Z Z) :
  map_Forall (λ _ q, 0 ≤ q) t →
  map_Forall (λ _ q, 0 ≤ q) (insert_or_ignore k 0 t).
Proof.
  intros Ht. unfold insert_or_ignore. destruct (t !! k); [done|].
  by apply map_Forall_insert_2.
Qed.

(** C6: if every daily and lifetime counter is ≥ 0, it still is after
    [update_solved_questions] with any user and any integer delta, after
    [reset_daily_stats], and after [register_user]. *)
Theorem counters_stay_nonneg (d : db) :
  counters_nonneg d →
  (∀ user_id questions_count : Z,
     counters_nonneg (update_solved_questions user_id questions_count d).1) ∧
  (∀ today : Z, counters_nonneg (reset_daily_stats today d).1) ∧
  (∀ (user_id : Z) (username first_name last_name : option string),
     counters_nonneg (register_user user_id username first_name last_name d).1).
Proof.
  intros [Hdaily Hlife]. split_and!.
  - intros u q.
    destruct (update_solved_questions_cases u q d) as [->|[Hknown Hok]];
      [by split|].
    destruct (update_known_user u q d Hknown Hok) as (_ & _ & Hl & Hd).
    unfold counters_nonneg. rewrite Hl, Hd.
    split; (apply map_Forall_insert_2; [lia|done]).
  - intros today. split; simpl; [|done].
    intros u q. rewrite lookup_fmap. destruct (daily_stats d !! u); simpl; [|done].
    intros [= <-]. done.
  - intros u un fn ln. unfold register_user.
    destruct (users d !! u); simpl; [done|].
    split; simpl; by apply insert_or_ignore_nonneg.
Qed.

Lemma counters_stay_nonneg_witness :
  counters_nonneg (update_solved_questions 2 (-20) db_abc).1 ∧
  counters_nonneg (reset_daily_stats 0 db_abc).1 ∧
  counters_nonneg (register_user 4 None None None db_abc).1.
Proof.
  assert (counters_nonneg db_abc) as Hnonneg.
  { split; apply (bool_decide_unpack _); by vm_compute. }
  destruct (counters_stay_nonneg db_abc Hnonneg) as (Hupdate & Hreset & Hregister).
  split_and!; [apply Hupdate|apply Hreset|apply Hregister].
Defined.

(** C7: [reset_daily_stats] succeeds, sets every daily counter to 0, appends
    exactly one entry to the reset log and leaves the users and every
    lifetime counter unchanged; called twice in a row it leaves the daily
    counters at 0 both times and the log is two entries longer. *)
Theorem reset_daily_stats_effect (today today' : Z) (d : db) :
  let d1 := (reset_daily_stats today d).1 in
  let d2 := (reset_daily_stats today' d1).1 in
  (reset_daily_stats today d).2 = true ∧
  (reset_daily_stats today' d1).2 = true ∧
  map_Forall (λ _ q, q = 0) (daily_stats d1) ∧
  map_Forall (λ _ q, q = 0) (daily_stats d2) ∧
  dom (daily_stats d1) = dom (daily_stats d) ∧
  (∀ u, daily_score u d1 = 0 ∧ daily_score u d2 = 0) ∧
  lifetime_stats d1 = lifetime_stats d ∧
  lifetime_stats d2 = lifetime_stats d ∧
  (∀ u, lifetime_score u d1 = lifetime_score u d ∧
        lifetime_score u d2 = lifetime_score u d) ∧
  (∃ e, daily_reset_log d1 = daily_reset_log d ++ [e]) ∧
  (∃ e e', daily_reset_log d2 = daily_reset_log d ++ [e; e']) ∧
  length (daily_reset_log d1) = S (length (daily_reset_log d)) ∧
  length (daily_reset_log d2) = S (S (length (daily_reset_log d))).
Proof.
  assert (∀ t : gmap Z Z, map_Forall (λ _ q, q = 0) ((λ _, 0) <$> t)) as Hzero.
  { intros t u q. rewrite lookup_fmap. by destruct (t !! u); intros [= <-]. }
  assert (∀ (t : gmap Z Z) u, default 0 (((λ _, 0) <$> t) !! u) = 0) as Hdef.
  { intros t u. rewrite lookup_fmap. by destruct (t !! u). }
  simpl. split_and!.
  - reflexivity.
  - reflexivity.
  - apply Hzero.
  - apply Hzero.
  - apply leibniz_equiv, dom_fmap.
  - intros u. unfold daily_score, get_user_stats. simpl.
    destruct (users d !! u); simpl; [|done]. by rewrite !Hdef.
  - reflexivity.
  - reflexivity.
  - intros u. unfold lifetime_score, get_user_stats. simpl.
    by destruct (users d !! u).
  - by eexists.
  - eexists _, _. by rewrite <- app_assoc.
  - rewrite length_app. simpl. lia.
  - rewrite !length_app. simpl. lia.
Qed.

(** C10: [register_user] for an id already in [users] succeeds, overwrites
    that user's username, first name and last name with the values given
    ([None] included), and leaves every other user, every daily counter and
    every lifetime counter as they were. *)
Theorem register_existing_user (user_id : Z)
    (username first_name last_name : option string) (d : db) :
  is_Some (users d !! user_id) →
  let d' := (register_user user_id username first_name last_name d).1 in
  (register_user user_id username first_name last_name d).2 = true ∧
  users d' !! user_id = Some (mk_user username first_name last_name) ∧
  (∀ v, v ≠ user_id → users d' !! v = users d !! v) ∧
  daily_stats d' = daily_stats d ∧
  lifetime_stats d' = lifetime_stats d ∧
  get_user_stats user_id d' = get_user_stats user_id d.
Proof.
  intros [x Hx]. unfold register_user, get_user_stats. rewrite Hx. simpl.
  rewrite lookup_insert_eq. split_and!; try done.
  intros v Hv. by rewrite lookup_insert_ne.
Qed.

Lemma register_existing_user_witness :
  users (register_user 2 None None None db_abc).1 !! 2 = Some (mk_user None None None) ∧
  get_user_stats 2 (register_user 2 None None None db_abc).1 = (8, 8).
Proof.
  destruct (register_existing_user 2 None None None db_abc) as (_ & Hname & _ & _ & _ & Hstats).
  - eexists. reflexivity.
  - split; [exact Hname|]. rewrite Hstats. reflexivity.
Defined.

(** ** The special-message ledger *)

Lemma next_id_above {A : Type} (key : A → Z) (rows : list A) (r : A) :
  r ∈ rows → key r < next_id key rows.
Proof.
  unfold next_id. induction rows as [|x rows IH]; simpl.
  - by intros ?%elem_of_nil.
  - intros [->|Hr]%elem_of_cons; [lia|]. specialize (IH Hr). lia.
Qed.

Lemma rights_store (u v o n now : Z) (d : db) :
  rights (store_special_message_right u v o n now d).1
    = rights d ++ [mk_message_right (next_id id (rights d)) u v o n false now].
Proof. reflexivity. Qed.

Lemma rights_use (i : Z) (d : db) :
  rights (use_message_right i d).1 = mark_used i <$> rights d.
Proof.
  unfold use_message_right, rights.
  destruct (special_message_rights d) eqn:Htable; simpl; [done|].
  by rewrite Htable.
Qed.

Lemma id_mark_used (i : Z) (r : message_right) : id (mark_used i r) = id r.
Proof. unfold mark_used. by destruct (id r =? i). Qed.

Lemma ids_mark_used (i : Z) (rows : list message_right) :
  id <$> (mark_used i <$> rows) = id <$> rows.
Proof.
  rewrite <- list_fmap_compose. apply list_fmap_ext. intros ? r _. simpl.
  apply id_mark_used.
Qed.

(** The operations that do not touch the ledger. *)
Lemma rights_run_other (o : operation) (d : db) :
  match o with
  | StoreSpecialMessageRight _ _ _ _ _ | UseMessageRight _ => True
  | _ => rights (run o d) = rights d
  end.
Proof.
  destruct o as [u un fn ln|u q|today| |]; simpl; try done.
  - unfold register_user. by destruct (users d !! u).
  - unfold update_solved_questions.
    destruct (users d !! u); [|done].
    destruct (negb (in_int64 q)); [done|].
    by destruct (negb (in_int64 _)).
Qed.

Lemma ids_increasing_init : ids_increasing init_database.
Proof. constructor. Qed.

Lemma ids_increasing_run (o : operation) (d : db) :
  ids_increasing d → ids_increasing (run o d).
Proof.
  unfold ids_increasing. intros Hd.
  pose proof (rights_run_other o d) as Hother.
  destruct o as [| | |u v o n now|i]; try (by rewrite Hother).
  - unfold run. rewrite rights_store, fmap_app. simpl.
    apply StronglySorted_app. split_and!; [|done|repeat constructor].
    intros x1 x2 (r & -> & Hr)%list_elem_of_fmap ->%list_elem_of_singleton.
    by apply next_id_above.
  - unfold run. by rewrite rights_use, ids_mark_used.
Qed.

Lemma ids_increasing_run_all (os : list operation) (d : db) :
  ids_increasing d → ids_increasing (run_all os d).
Proof.
  revert d. induction os as [|o os IH]; intros d Hd; [done|].
  apply IH. by apply ids_increasing_run.
Qed.

Lemma ids_increasing_rows (rows : list message_right) :
  StronglySorted Z.lt (id <$> rows) →
  StronglySorted (λ a b, id a < id b) rows.
Proof.
  induction rows as [|r rows IH]; csimpl; [constructor|].
  intros [Hr Hrows]%StronglySorted_cons. constructor; [by apply IH|].
  rewrite Forall_fmap in Hr. exact Hr.
Qed.

(** What the lookup computes: an unconsumed right of the user with the
    latest creation time, or nothing if the user has no unconsumed right;
    the query names no second sort key, and among rights that share the
    latest creation time the scan order decides, so the one inserted first
    comes out. *)
Lemma get_unused_message_right_policy (user_id : Z) (d : db) :
  ids_increasing d →
  peek_result lowest_id_wins user_id d (get_unused_message_right user_id d).
Proof.
  unfold ids_increasing, get_unused_message_right, peek_result,
    unconsumed_right_of, rights.
  destruct (special_message_rights d) as [rows|]; simpl.
  2:{ intros _ r [Hr _]. by apply elem_of_nil in Hr. }
  intros Hinc.
  set (unused := filter (λ r, Database.user_id r = user_id ∧ used r = false) rows).
  assert (StronglySorted (λ a b, id a < id b) unused) as Hunused.
  { eapply strongly_sorted_sublist; [apply sublist_filter; apply _|].
    by apply ids_increasing_rows. }
  unfold limit. simpl.
  destruct (order_by_desc created_at unused) as [|r rest] eqn:Hsorted; simpl.
  - apply order_by_desc_nil in Hsorted.
    intros r (Hr & Hu & Hfree).
    assert (r ∈ unused) as Hin by (by apply list_elem_of_filter).
    rewrite Hsorted in Hin. by apply elem_of_nil in Hin.
  - apply order_by_desc_first in Hsorted as (i & Hi & Hbest).
    assert (r ∈ unused) as Hin by (by eapply list_elem_of_lookup_2).
    apply list_elem_of_filter in Hin as [[Hu Hfree] Hr].
    exists r. split_and!; try done.
    intros r' (Hr' & Hu' & Hfree').
    assert (r' ∈ unused) as Hin' by (by apply list_elem_of_filter).
    apply list_elem_of_lookup_1 in Hin' as [j Hj].
    destruct (Hbest j r' Hj) as [Hlt|[Heq Hij]]; [by left|right].
    split; [done|]. unfold lowest_id_wins.
    destruct (decide (i = j)) as [->|Hne]; [by simplify_eq|].
    apply Z.lt_le_incl.
    apply (strongly_sorted_lookup (λ a b, id a < id b) unused i j r r');
      [done..|lia].
Qed.

Lemma get_unused_message_right_policy_witness :
  peek_result lowest_id_wins 7 db_two_rights
    (get_unused_message_right 7 db_two_rights).
Proof.
  apply get_unused_message_right_policy.
  apply (bool_decide_unpack _). by vm_compute.
Defined.

(** C8 fails on the code.  Of two unconsumed rights of user 7 created in
    the same second, with ids 1 and 2, [get_unused_message_right] returns 1,
    the older one, and not the most recently created right, which is the one
    with the highest insertion sequence: [ORDER BY created_at DESC] has no
    tie-break on the id. *)
Lemma get_unused_message_right_tie :
  id <$> rights db_two_rights = [1; 2] ∧
  created_at <$> rights db_two_rights = [100; 100] ∧
  get_unused_message_right 7 db_two_rights = Some 1 ∧
  ¬ peek_result highest_id_wins 7 db_two_rights
      (get_unused_message_right 7 db_two_rights).
Proof.
  split_and!; [by vm_compute..|].
  change (get_unused_message_right 7 db_two_rights) with (Some 1).
  intros (r & (Hr & _) & Hid & Hbest).
  assert (created_at r = 100) as Hat.
  { change (rights db_two_rights) with
      [mk_message_right 1 7 1 2 1 false 100; mk_message_right 2 7 2 3 2 false 100]
      in Hr.
    apply elem_of_cons in Hr as [->|Hr]; [done|].
    apply list_elem_of_singleton in Hr as ->. done. }
  destruct (Hbest (mk_message_right 2 7 2 3 2 false 100)) as [Hlt|[_ Hle]].
  - split_and!; [|done..]. change (rights db_two_rights) with
      [mk_message_right 1 7 1 2 1 false 100; mk_message_right 2 7 2 3 2 false 100].
    apply list_elem_of_further, list_elem_of_here.
  - simpl in Hlt. lia.
  - unfold highest_id_wins in Hle. simpl in Hle. lia.
Qed.

Lemma used_mark_used (i j : Z) (r : message_right) :
  used r = true → used (mark_used j r) = true.
Proof. unfold mark_used. by destruct (id r =? j). Qed.

Lemma mark_used_consumed (i : Z) (r : message_right) :
  (id r = i → used r = true) → mark_used i r = r.
Proof.
  unfold mark_used. destruct (Z.eqb_spec (id r) i) as [Hid|]; [|done].
  intros Hused. specialize (Hused Hid). destruct r. simpl in *. by subst.
Qed.

Lemma use_message_right_consumes (i : Z) (d : db) :
  i ∈ id <$> rights d → consumed i (use_message_right i d).1.
Proof.
  intros Hi. unfold consumed. rewrite rights_use, ids_mark_used.
  split; [done|].
  intros r (r0 & -> & _)%list_elem_of_fmap. rewrite id_mark_used.
  intros Hid. unfold mark_used. by rewrite (proj2 (Z.eqb_eq _ _) Hid).
Qed.

Lemma consumed_run (i : Z) (o : operation) (d : db) :
  consumed i d → consumed i (run o d).
Proof.
  unfold consumed. intros [Hi Hused].
  pose proof (rights_run_other o d) as Hother.
  destruct o as [| | |u v o n now|j]; try (by rewrite Hother).
  - unfold run. rewrite rights_store, fmap_app. split.
    + apply elem_of_app. by left.
    + intros r [Hr| ->%list_elem_of_singleton]%elem_of_app; [by apply Hused|].
      simpl. intros Hfresh.
      apply list_elem_of_fmap in Hi as (r0 & -> & Hr0).
      pose proof (next_id_above id (rights d) r0 Hr0). lia.
  - unfold run. rewrite rights_use, ids_mark_used. split; [done|].
    intros r (r0 & -> & Hr0)%list_elem_of_fmap. rewrite id_mark_used.
    intros Hid. apply (used_mark_used i). by apply Hused.
Qed.

Lemma consumed_run_all (i : Z) (os : list operation) (d : db) :
  consumed i d → consumed i (run_all os d).
Proof.
  revert d. induction os as [|o os IH]; intros d Hd; [done|].
  apply IH. by apply consumed_run.
Qed.

Lemma consumed_not_returned (i u : Z) (d : db) :
  consumed i d → get_unused_message_right u d ≠ Some i.
Proof.
  intros [_ Hused]. unfold get_unused_message_right, rights in *.
  destruct (special_message_rights d) as [rows|]; [|done]. simpl in Hused.
  unfold limit. simpl.
  destruct (order_by_desc created_at _) as [|r rest] eqn:Hsorted; [done|].
  simpl. intros [= Hid].
  assert (r ∈ r :: rest) as Hin by apply list_elem_of_here.
  rewrite <- Hsorted, order_by_desc_perm in Hin.
  apply list_elem_of_filter in Hin as [[_ Hfree] Hr].
  rewrite (Hused r Hr Hid) in Hfree. done.
Qed.

Lemma consumed_use_again (i : Z) (d : db) :
  consumed i d → use_message_right i d = (d, true).
Proof.
  intros [Hi Hused]. unfold use_message_right, rights in *.
  destruct d as [us daily life log [rows|]]; simpl in *.
  - do 3 f_equal. rewrite <- (list_fmap_id rows) at 2.
    apply list_fmap_ext. intros ? r Hr. simpl.
    apply mark_used_consumed. apply Hused. by eapply list_elem_of_lookup_2.
  - by apply elem_of_nil in Hi.
Qed.

(** C9: once an existing right has been consumed by [use_message_right],
    no call of [get_unused_message_right], for any user and after any
    further operations on the database, returns its id; and a later
    [use_message_right] on the same id returns [True] and leaves the whole
    database as it was, so the right stays consumed and no other record
    changes. *)
Theorem consumed_right_stays_consumed (right_id : Z) (d : db) :
  right_id ∈ id <$> rights d →
  let d1 := (use_message_right right_id d).1 in
  (use_message_right right_id d).2 = true ∧
  (∀ (os : list operation) (u : Z),
     get_unused_message_right u (run_all os d1) ≠ Some right_id) ∧
  use_message_right right_id d1 = (d1, true) ∧
  (∀ os : list operation,
     use_message_right right_id (run_all os d1) = (run_all os d1, true)).
Proof.
  intros Hi d1.
  pose proof (use_message_right_consumes right_id d Hi) as Hd1.
  split_and!.
  - unfold use_message_right, rights in *.
    destruct (special_message_rights d); [done|]. by apply elem_of_nil in Hi.
  - intros os u. by apply consumed_not_returned, consumed_run_all.
  - by apply consumed_use_again.
  - intros os. by apply consumed_use_again, consumed_run_all.
Qed.

Lemma consumed_right_stays_consumed_witness :
  get_unused_message_right 7
    (run_all [StoreSpecialMessageRight 7 3 4 3 200; UseMessageRight 3]
       (use_message_right 1 db_two_rights).1) ≠ Some 1 ∧
  use_message_right 1 (use_message_right 1 db_two_rights).1
    = ((use_message_right 1 db_two_rights).1, true).
Proof.
  destruct (consumed_right_stays_consumed 1 db_two_rights)
    as (_ & Hnever & Hagain & _).
  - change (id <$> rights db_two_rights) with [1; 2]. apply list_elem_of_here.
  - split; [apply Hnever|exact Hagain].
Defined.

(** A right granted and consumed is gone: the specification's ledger
    example. *)
Lemma grant_peek_consume_example :
  let d1 := (store_special_message_right 7 1 2 1 100 init_database).1 in
  get_unused_message_right 7 init_database = None ∧
  use_message_right 1 init_database = (init_database, false) ∧
  get_unused_message_right 7 d1 = Some 1 ∧
  get_message_right_details 1 d1 = Some (7, 1, 2, 1) ∧
  get_unused_message_right 7 (use_message_right 1 d1).1 = None.
Proof. by vm_compute. Qed.

(** ** More on the leaderboard builder *)

#[local] Set Warnings "-clear-no-such-hyp".

Lemma scan_perm {V : Type} (t : gmap Z V) : scan t ≡ₚ map_to_list t.
Proof. apply order_by_desc_perm. Qed.

Lemma elem_of_scan {V : Type} (t : gmap Z V) (u : Z) (v : V) :
  (u, v) ∈ scan t ↔ t !! u = Some v.
Proof. rewrite scan_perm. apply elem_of_map_to_list. Qed.

Lemma scan_nodup {V : Type} (t : gmap Z V) : NoDup (scan t).*1.
Proof. rewrite scan_perm. apply NoDup_fst_map_to_list. Qed.

Lemma omap_keys_sublist {A B : Type} (f : A → option B) (ka : A → Z) (kb : B → Z)
    (l : list A) :
  (∀ a b, f a = Some b → kb b = ka a) →
  (kb <$> omap f l) `sublist_of` (ka <$> l).
Proof.
  intros Hkey. induction l as [|a l IH]; csimpl; [done|].
  destruct (f a) as [b|] eqn:Hfa; csimpl.
  - rewrite (Hkey a b Hfa). by apply sublist_skip.
  - by apply sublist_cons.
Qed.

(** The rows a leaderboard query selects before [LIMIT]. *)
Lemma leaderboard_rows_unlimited (stats : gmap Z Z) (us : gmap Z user)
    (r : Z * user * Z) :
  r ∈ leaderboard_rows stats us (-1) ↔ eligible stats us r.1.1 r.1.2 r.2.
Proof.
  unfold leaderboard_rows, limit, eligible. simpl.
  rewrite order_by_desc_perm, list_elem_of_filter, list_elem_of_omap.
  destruct r as [[u x] q]. simpl. split.
  - intros [[Hpos Hname] ([u' q'] & Hin & Hjoin)]. simpl in Hjoin.
    apply elem_of_scan in Hin.
    destruct (us !! u') as [x'|] eqn:Hx'; [|done]. simplify_eq. done.
  - intros (Hx & Hq & Hpos & Hname). split; [done|].
    exists (u, q). split; [by apply elem_of_scan|]. simpl. by rewrite Hx.
Qed.

Lemma leaderboard_rows_limit (stats : gmap Z Z) (us : gmap Z user) (lim : Z) :
  leaderboard_rows stats us lim =
  if in_int64 lim then limit lim (leaderboard_rows stats us (-1)) else [].
Proof. unfold leaderboard_rows. by destruct (in_int64 lim). Qed.

Lemma leaderboard_rows_elem (stats : gmap Z Z) (us : gmap Z user) (lim : Z)
    (r : Z * user * Z) :
  r ∈ leaderboard_rows stats us lim → eligible stats us r.1.1 r.1.2 r.2.
Proof.
  rewrite leaderboard_rows_limit. intros Hr.
  apply leaderboard_rows_unlimited.
  destruct (in_int64 lim); [|by apply elem_of_nil in Hr].
  eapply sublist_subseteq; [apply limit_sublist|done].
Qed.

Lemma leaderboard_rows_nodup (stats : gmap Z Z) (us : gmap Z user) (lim : Z) :
  NoDup ((λ r : Z * user * Z, r.1.1) <$> leaderboard_rows stats us lim).
Proof.
  unfold leaderboard_rows. destruct (in_int64 lim); simpl; [|constructor].
  eapply sublist_NoDup; [|apply fmap_sublist, limit_sublist].
  rewrite order_by_desc_perm.
  eapply sublist_NoDup; [|apply fmap_sublist, sublist_filter; apply _].
  eapply sublist_NoDup; [apply (scan_nodup stats)|].
  apply omap_keys_sublist. intros [u q] b. simpl.
  destruct (us !! u); [|done]. by intros [= <-].
Qed.

(** A row that [LIMIT] cut off has a score no larger than any row kept, and
    then the leaderboard is full. *)
Lemma leaderboard_rows_top (stats : gmap Z Z) (us : gmap Z user) (lim : Z)
    (u : Z) (x : user) (q : Z) :
  in_int64 lim = true →
  eligible stats us u x q →
  (u, x, q) ∈ leaderboard_rows stats us lim ∨
  (0 ≤ lim ∧ Z.of_nat (length (leaderboard_rows stats us lim)) = lim ∧
   Forall (λ r : Z * user * Z, q ≤ r.2) (leaderboard_rows stats us lim)).
Proof.
  intros Hbind Helig.
  apply (leaderboard_rows_unlimited stats us (u, x, q)) in Helig.
  rewrite leaderboard_rows_limit, Hbind.
  pose proof (leaderboard_rows_sorted stats us (-1)) as Hsorted.
  revert Helig Hsorted. generalize (leaderboard_rows stats us (-1)). intros l.
  unfold limit. destruct (Z.ltb_spec lim 0) as [|Hlim]; [by left|].
  intros Hin Hsorted. rewrite <- (take_drop (Z.to_nat lim) l) in Hin, Hsorted.
  apply elem_of_app in Hin as [Hin|Hin]; [by left|right].
  split; [done|]. split.
  - rewrite length_take.
    assert (Z.to_nat lim < length l)%nat; [|lia].
    destruct (decide (Z.to_nat lim < length l)%nat); [done|].
    rewrite drop_ge in Hin by lia. by apply elem_of_nil in Hin.
  - apply Forall_forall. intros r Hr.
    apply (StronglySorted_app_1_elem_of _ _ _ r (u, x, q) Hsorted Hr Hin).
Qed.

(** X2. Every entry of the id-bearing daily leaderboard is a registered
    user, listed once, under the name [COALESCE(username, first_name,
    'Unknown User')] and with the daily score the user has in the store. *)
Theorem daily_leaderboard_entries_are_users (lim : Z) (d : db) :
  NoDup (uid_of <$> get_daily_leaderboard_with_ids lim d) ∧
  ∀ (u : Z) (name : string) (q : Z),
    (u, name, q) ∈ get_daily_leaderboard_with_ids lim d →
    ∃ x : user, users d !! u = Some x ∧ name = display_name x ∧
                daily_stats d !! u = Some q ∧ (get_user_stats u d).1 = q.
Proof.
  unfold get_daily_leaderboard_with_ids. split.
  - rewrite <- list_fmap_compose. apply leaderboard_rows_nodup.
  - intros u name q ([[u' x] q'] & [= -> -> ->] & Hr)%list_elem_of_fmap.
    apply leaderboard_rows_elem in Hr as (Hx & Hq & _). simpl in *.
    exists x. unfold get_user_stats. rewrite Hx, Hq. done.
Qed.

(** X3. For a limit the store can take (within the 64-bit range), a
    registered user with a positive daily score whose name passes the filter
    is on the daily leaderboard, unless the leaderboard is full (it has
    exactly [limit] entries) and every entry on it has at least that user's
    score. *)
Theorem daily_leaderboard_lists_top_scores (lim : Z) (d : db)
    (u : Z) (x : user) (q : Z) :
  in_int64 lim = true →
  eligible (daily_stats d) (users d) u x q →
  (u, display_name x, q) ∈ get_daily_leaderboard_with_ids lim d ∨
  (0 ≤ lim ∧
   Z.of_nat (length (get_daily_leaderboard_with_ids lim d)) = lim ∧
   Forall (λ e : Z * string * Z, q ≤ e.2) (get_daily_leaderboard_with_ids lim d)).
Proof.
  intros Hbind Helig. unfold get_daily_leaderboard_with_ids.
  destruct (leaderboard_rows_top _ _ lim u x q Hbind Helig)
    as [Hin|(Hlim & Hlen & Htop)].
  - left. apply list_elem_of_fmap. by exists (u, x, q).
  - right. rewrite length_fmap, Forall_fmap. done.
Qed.

Lemma daily_leaderboard_lists_top_scores_witness :
  (3, "C", 5) ∈ get_daily_leaderboard_with_ids 2 db_abc ∨
  (0 ≤ 2 ∧
   Z.of_nat (length (get_daily_leaderboard_with_ids 2 db_abc)) = 2 ∧
   Forall (λ e : Z * string * Z, 5 ≤ e.2) (get_daily_leaderboard_with_ids 2 db_abc)).
Proof.
  apply (daily_leaderboard_lists_top_scores 2 db_abc 3 (mk_user (Some "C") None None) 5).
  - reflexivity.
  - split_and!; [reflexivity|reflexivity|lia|by vm_compute].
Defined.

(** X4. Right after [reset_daily_stats] both daily leaderboards are empty,
    whatever the limit, and the lifetime leaderboard is what it was. *)
Theorem reset_empties_daily_leaderboard (today lim : Z) (d : db) :
  get_daily_leaderboard_with_ids lim (reset_daily_stats today d).1 = [] ∧
  get_daily_leaderboard lim (reset_daily_stats today d).1 = [] ∧
  get_lifetime_leaderboard lim (reset_daily_stats today d).1
    = get_lifetime_leaderboard lim d.
Proof.
  assert (leaderboard_rows ((λ _, 0) <$> daily_stats d) (users d) lim = [])
    as Hrows.
  { destruct (leaderboard_rows _ _ _) as [|r rows] eqn:Hr; [done|].
    assert (r ∈ r :: rows) as Hin by apply list_elem_of_here.
    rewrite <- Hr in Hin. apply leaderboard_rows_elem in Hin as (_ & Hq & Hpos & _).
    rewrite lookup_fmap in Hq. destruct (daily_stats d !! r.1.1); simpl in Hq; [|done].
    simplify_eq. lia. }
  unfold get_daily_leaderboard_with_ids, get_daily_leaderboard. simpl.
  by rewrite Hrows.
Qed.

(** ** More on the score store *)

Lemma run_all_invariant (P : db → Prop) (os : list operation) (d : db) :
  (∀ o d, P d → P (run o d)) → P d → P (run_all os d).
Proof.
  intros Hstep. revert d. induction os as [|o os IH]; intros d Hd; [done|].
  apply IH. by apply Hstep.
Qed.

Lemma insert_or_ignore_default (k v : Z) (t : gmap Z Z) :
  default 0 (insert_or_ignore k 0 t !! v) = default 0 (t !! v).
Proof.
  unfold insert_or_ignore. destruct (t !! k) eqn:Hk; [done|].
  destruct (decide (k = v)) as [->|Hne].
  - by rewrite lookup_insert_eq, Hk.
  - by rewrite lookup_insert_ne.
Qed.

Lemma insert_or_ignore_dom (k : Z) (t : gmap Z Z) :
  dom (insert_or_ignore k 0 t) = {[k]} ∪ dom t.
Proof.
  unfold insert_or_ignore. destruct (t !! k) eqn:Hk.
  - apply elem_of_dom_2 in Hk. set_solver.
  - by rewrite dom_insert_L.
Qed.

(** The counters the outside sees never leave [0 ≤ daily ≤ lifetime]. *)
Lemma daily_le_lifetime_run (o : operation) (d : db) :
  (∀ u, 0 ≤ default 0 (daily_stats d !! u) ≤ default 0 (lifetime_stats d !! u)) →
  ∀ u, 0 ≤ default 0 (daily_stats (run o d) !! u)
         ≤ default 0 (lifetime_stats (run o d) !! u).
Proof.
  intros Hd u. specialize (Hd u) as Hu.
  destruct o as [v un fn ln|v q|today|v w o n now|i]; simpl.
  - unfold register_user. destruct (users d !! v); simpl; [done|].
    by rewrite !insert_or_ignore_default.
  - destruct (update_solved_questions_cases v q d) as [->|[Hknown Hok]]; [done|].
    destruct (update_known_user v q d Hknown Hok) as (_ & _ & -> & ->).
    destruct (decide (v = u)) as [->|Hne].
    + rewrite !lookup_insert_eq. simpl. lia.
    + by rewrite !lookup_insert_ne.
  - rewrite lookup_fmap. destruct (daily_stats d !! u); simpl in *; lia.
  - done.
  - unfold use_message_right. by destruct (special_message_rights d).
Qed.

Lemma stats_integrity_run (o : operation) (d : db) :
  stats_integrity d → stats_integrity (run o d).
Proof.
  unfold stats_integrity. intros [Hdaily Hlife].
  destruct o as [v un fn ln|v q|today|v w o n now|i]; simpl.
  - unfold register_user. destruct (users d !! v) eqn:Hv; simpl.
    + apply elem_of_dom_2 in Hv. rewrite dom_insert_L. set_solver.
    + rewrite !insert_or_ignore_dom, dom_insert_L. set_solver.
  - destruct (update_solved_questions_cases v q d) as [->|[[x Hx] Hok]]; [done|].
    destruct (update_known_user v q d ltac:(by eexists) Hok) as (_ & -> & -> & ->).
    apply elem_of_dom_2 in Hx. rewrite !dom_insert_L. set_solver.
  - by rewrite dom_fmap_L.
  - done.
  - unfold use_message_right. by destruct (special_message_rights d).
Qed.

(** X5. In every state the operations can reach from an empty database, a
    user's daily score is at least 0 and at most the lifetime score. *)
Theorem daily_never_exceeds_lifetime (os : list operation) (u : Z) :
  0 ≤ (get_user_stats u (run_all os init_database)).1
    ≤ (get_user_stats u (run_all os init_database)).2.
Proof.
  assert (∀ v, 0 ≤ default 0 (daily_stats (run_all os init_database) !! v)
                 ≤ default 0 (lifetime_stats (run_all os init_database) !! v))
    as Hinv.
  { apply (run_all_invariant
             (λ d, ∀ v, 0 ≤ default 0 (daily_stats d !! v)
                          ≤ default 0 (lifetime_stats d !! v))).
    - intros o d Hd. by apply daily_le_lifetime_run.
    - intros v. simpl. rewrite !lookup_empty. simpl. lia. }
  unfold get_user_stats. destruct (users _ !! u); simpl; [apply Hinv|lia].
Qed.

(** X6. In every state the operations can reach from an empty database,
    the users with a daily row, the users with a lifetime row and the
    registered users are the same: no stats row is orphaned and no user
    lacks one. *)
Theorem stats_rows_match_users (os : list operation) :
  stats_integrity (run_all os init_database).
Proof.
  apply (run_all_invariant stats_integrity).
  - apply stats_integrity_run.
  - split; reflexivity.
Qed.

Lemma update_rest_unchanged (user_id questions_count : Z) (d : db) :
  daily_reset_log (update_solved_questions user_id questions_count d).1
    = daily_reset_log d ∧
  special_message_rights (update_solved_questions user_id questions_count d).1
    = special_message_rights d.
Proof.
  unfold update_solved_questions.
  destruct (users d !! user_id); [|done].
  destruct (negb (in_int64 questions_count)); [done|].
  by destruct (negb (in_int64 _)).
Qed.

(** X7. For a registered user whose daily count is not above the lifetime
    count (as in every reachable state), [update_solved_questions] does one
    of two things.  When the delta and the new lifetime count
    [max(0, lifetime + delta)] are within the store's 64-bit range, it
    succeeds, moves both of that user's counters to [max(0, old + delta)],
    and changes no other user's counters, no user row, no reset-log row and
    no right.  Otherwise it returns [False] and changes nothing. *)
Theorem update_solved_questions_effect (user_id questions_count : Z) (d : db) :
  is_Some (users d !! user_id) →
  (get_user_stats user_id d).1 ≤ (get_user_stats user_id d).2 →
  let d' := (update_solved_questions user_id questions_count d).1 in
  (storable (get_user_stats user_id d).2 questions_count = true →
   (update_solved_questions user_id questions_count d).2 = true ∧
   get_user_stats user_id d' =
     (Z.max 0 ((get_user_stats user_id d).1 + questions_count),
      Z.max 0 ((get_user_stats user_id d).2 + questions_count)) ∧
   (∀ v, v ≠ user_id →
      get_user_stats v d' = get_user_stats v d ∧
      daily_stats d' !! v = daily_stats d !! v ∧
      lifetime_stats d' !! v = lifetime_stats d !! v) ∧
   users d' = users d ∧
   daily_reset_log d' = daily_reset_log d ∧
   special_message_rights d' = special_message_rights d) ∧
  (storable (get_user_stats user_id d).2 questions_count = false →
   update_solved_questions user_id questions_count d = (d, false)).
Proof.
  intros Hknown _ d'.
  assert ((get_user_stats user_id d).2 = default 0 (lifetime_stats d !! user_id))
    as Hscore.
  { unfold get_user_stats. by destruct Hknown as [x ->]. }
  rewrite Hscore. split; [|apply update_not_storable].
  intros Hstorable.
  destruct (update_known_user user_id questions_count d Hknown Hstorable)
    as (Hok & Hus & Hlife & Hdaily).
  fold d' in Hus, Hlife, Hdaily.
  split_and!; [done| | |done|..].
  - unfold get_user_stats. rewrite Hus, Hlife, Hdaily.
    destruct Hknown as [x ->]. simpl. by rewrite !lookup_insert_eq.
  - intros v Hv. unfold get_user_stats. rewrite Hus, Hlife, Hdaily.
    by rewrite !lookup_insert_ne.
  - apply update_rest_unchanged.
  - apply update_rest_unchanged.
Qed.

Lemma update_solved_questions_effect_witness :
  (get_user_stats 2 (update_solved_questions 2 (-20) db_abc).1 = (0, 0) ∧
   get_user_stats 1 (update_solved_questions 2 (-20) db_abc).1 = (10, 10)) ∧
  update_solved_questions 2 9223372036854775808 db_abc = (db_abc, false).
Proof.
  split.
  - destruct (update_solved_questions_effect 2 (-20) db_abc)
      as [Hstored _].
    + eexists. reflexivity.
    + by vm_compute.
    + destruct (Hstored eq_refl) as (_ & Hself & Hother & _).
      split; [exact Hself|]. by destruct (Hother 1) as [-> _].
  - apply (update_solved_questions_effect 2 9223372036854775808 db_abc).
    + eexists. reflexivity.
    + by vm_compute.
    + reflexivity.
Defined.



(** ** More on the special-message ledger *)

Lemma next_id_least {A : Type} (key : A → Z) (rows : list A) (n : Z) :
  0 ≤ n → (∀ r, r ∈ rows → key r ≤ n) → next_id key rows ≤ 1 + n.
Proof.
  unfold next_id. intros Hn. induction rows as [|x rows IH]; simpl; [lia|].
  intros Hrows.
  assert (key x ≤ n) by (apply Hrows, list_elem_of_here).
  assert (1 + foldr (λ r m, Z.max (key r) m) 0 rows ≤ 1 + n).
  { apply IH. intros r Hr. by apply Hrows, list_elem_of_further. }
  lia.
Qed.

Lemma mark_used_other (i : Z) (rows : list message_right) :
  (∀ r, r ∈ rows → id r ≠ i) → mark_used i <$> rows = rows.
Proof.
  intros Hother. rewrite <- (list_fmap_id rows) at 2.
  apply list_fmap_ext. intros k r Hr. simpl.
  apply mark_used_consumed. intros Hid.
  by destruct (Hother r (list_elem_of_lookup_2 _ _ _ Hr)).
Qed.

Lemma filter_id_fresh (i : Z) (rows : list message_right) :
  (∀ r, r ∈ rows → id r ≠ i) → filter (λ r, id r = i) rows = [].
Proof.
  intros Hother. induction rows as [|r rows IH]; [done|].
  rewrite filter_cons, decide_False by (apply Hother, list_elem_of_here).
  apply IH. intros r' Hr'. by apply Hother, list_elem_of_further.
Qed.

Lemma rows_below_next_id (rows : list message_right) (r : message_right) :
  r ∈ rows → id r ≠ next_id id rows.
Proof. intros Hr. pose proof (next_id_above id rows r Hr). lia. Qed.

Lemma details_of_rows (i : Z) (d : db) :
  get_message_right_details i d =
  match filter (λ r, id r = i) (rights d) with
  | r :: _ => Some (user_id r, outranked_user_id r, old_position r, new_position r)
  | [] => None
  end.
Proof.
  unfold get_message_right_details, rights.
  by destruct (special_message_rights d).
Qed.

Lemma get_unused_of_rows (u : Z) (d : db) :
  get_unused_message_right u d =
  id <$> head (order_by_desc created_at
                 (filter (λ r, user_id r = u ∧ used r = false) (rights d))).
Proof.
  unfold get_unused_message_right, rights, limit.
  destruct (special_message_rights d) as [rows|]; simpl; [|done].
  by destruct (order_by_desc _ _).
Qed.

(** X10. Ids are handed out consecutively from 1: in every state the
    operations can reach from an empty database, the rights carry the ids
    1, 2, ..., n in insertion order.  So no right has id 0. *)
Theorem right_ids_are_consecutive (os : list operation) :
  id <$> rights (run_all os init_database)
  = seqZ 1 (Z.of_nat (length (rights (run_all os init_database)))).
Proof.
  apply (run_all_invariant
           (λ d, id <$> rights d = seqZ 1 (Z.of_nat (length (rights d))))).
  2:{ reflexivity. }
  intros o d Hd. pose proof (rights_run_other o d) as Hother.
  destruct o as [| | |u v o n now|i]; try (by rewrite Hother).
  - unfold run. rewrite rights_store, fmap_app, length_app, Hd. simpl.
    rewrite Nat2Z.inj_add, seqZ_app by lia. f_equal.
    change (seqZ (1 + Z.of_nat (length (rights d))) (Z.of_nat 1))
      with [0 + (1 + Z.of_nat (length (rights d)))].
    f_equal. rewrite Z.add_0_l.
    apply Z.le_antisymm.
    + apply next_id_least; [lia|]. intros r Hr.
      assert (id r ∈ seqZ 1 (Z.of_nat (length (rights d)))) as Hin.
      { rewrite <- Hd. apply list_elem_of_fmap. by exists r. }
      apply elem_of_seqZ in Hin. lia.
    + destruct (rights d) as [|r0 rows0] eqn:Hrows; [unfold next_id; simpl; lia|].
      assert (∃ r, r ∈ r0 :: rows0 ∧ id r = Z.of_nat (length (r0 :: rows0)))
        as (r & Hr & Hid).
      { assert (Z.of_nat (length (r0 :: rows0))
                ∈ seqZ 1 (Z.of_nat (length (r0 :: rows0)))) as Hin.
        { apply elem_of_seqZ. simpl. lia. }
        rewrite <- Hd in Hin.
        apply list_elem_of_fmap in Hin as (r & ? & ?). by exists r. }
      pose proof (next_id_above id _ r Hr). simpl in *. lia.
  - unfold run. by rewrite rights_use, ids_mark_used, length_fmap.
Qed.

(** X11. No operation deletes, moves or rewrites a right: a right stays at
    its position in the ledger with the same id, grantee, outranked user,
    positions and creation time, and once consumed it stays consumed. *)
Theorem rights_are_append_only (os : list operation) (d : db)
    (k : nat) (r : message_right) :
  rights d !! k = Some r →
  ∃ r', rights (run_all os d) !! k = Some r' ∧ same_right r r'.
Proof.
  revert d r. induction os as [|o os IH]; intros d r Hr.
  { exists r. by repeat split. }
  assert (∃ r1, rights (run o d) !! k = Some r1 ∧ same_right r r1)
    as (r1 & Hr1 & Hsame1).
  { pose proof (rights_run_other o d) as Hother.
    destruct o as [| | |u v o n now|i];
      try (exists r; rewrite Hother; by repeat split).
    - unfold run. rewrite rights_store. exists r.
      split; [by apply lookup_app_l_Some|by repeat split].
    - unfold run. rewrite rights_use, list_lookup_fmap, Hr. simpl.
      eexists. split; [done|]. unfold same_right, mark_used.
      destruct (id r =? i); simpl; by repeat split. }
  destruct (IH (run o d) r1 Hr1) as (r' & Hr' & Hsame).
  exists r'. split; [done|].
  destruct Hsame1 as (? & ? & ? & ? & ? & ? & ?), Hsame as (? & ? & ? & ? & ? & ? & ?).
  unfold same_right. repeat split; try congruence. auto.
Qed.

Lemma rights_are_append_only_witness :
  ∃ r', rights (run_all [StoreSpecialMessageRight 9 7 3 2 300; UseMessageRight 1]
                  db_two_rights) !! 0%nat = Some r' ∧
        same_right (mk_message_right 1 7 1 2 1 false 100) r'.
Proof.
  apply (rights_are_append_only _ db_two_rights 0). reflexivity.
Defined.

Lemma details_after_store (user_id outranked_user_id old_pos new_pos now : Z)
    (d : db) :
  get_message_right_details (next_id id (rights d))
    (store_special_message_right user_id outranked_user_id
       old_pos new_pos now d).1
  = Some (user_id, outranked_user_id, old_pos, new_pos).
Proof.
  rewrite details_of_rows, rights_store, filter_app, filter_id_fresh
    by (intros r Hr; by apply rows_below_next_id).
  rewrite filter_cons, decide_True by done. done.
Qed.




Section OrderBySnoc.
Context {A : Type} (key : A → Z).



End OrderBySnoc.


(** X15. Granting a right and consuming it at once leaves every user's
    lookup as it was before the grant. *)
Theorem grant_then_consume_restores_lookup
    (user_id outranked_user_id old_pos new_pos now : Z) (d : db) (v : Z) :
  let d1 := (store_special_message_right user_id outranked_user_id
               old_pos new_pos now d).1 in
  get_unused_message_right v (use_message_right (next_id id (rights d)) d1).1
  = get_unused_message_right v d.
Proof.
  intros d1. subst d1.
  rewrite !get_unused_of_rows, rights_use, rights_store, fmap_app.
  rewrite mark_used_other by (intros r Hr; by apply rows_below_next_id).
  rewrite filter_app. simpl. unfold mark_used. simpl. rewrite Z.eqb_refl.
  rewrite (filter_cons _ (mk_message_right _ _ _ _ _ _ _)), decide_False
    by (simpl; by intros [_ ?]).
  by rewrite filter_nil, app_nil_r.
Qed.

Lemma filter_unique_id (rows : list message_right) (r : message_right) :
  NoDup (id <$> rows) → r ∈ rows → filter (λ r', id r' = id r) rows = [r].
Proof.
  induction rows as [|x rows IH]; csimpl.
  - by intros _ ?%elem_of_nil.
  - intros [Hx Hrows]%NoDup_cons [->|Hr]%elem_of_cons.
    + rewrite filter_cons, decide_True by done. f_equal.
      apply filter_id_fresh. intros r' Hr' Hid. apply Hx.
      apply list_elem_of_fmap. by exists r'.
    + rewrite filter_cons, decide_False; [by apply IH|].
      intros Hid. apply Hx. apply list_elem_of_fmap. by exists r.
Qed.

Lemma ids_increasing_nodup (d : db) : ids_increasing d → NoDup (id <$> rights d).
Proof.
  unfold ids_increasing. generalize (id <$> rights d). intros l Hl.
  induction Hl as [|x l Hl IH Hx]; constructor; [|done].
  intros Hin. eapply Forall_forall in Hx; [|exact Hin]. lia.
Qed.

(** X16. When ids grow with the insertion order, the id
    [get_unused_message_right] returns for a user always has details, and
    they name that user as the grantee. *)
Theorem peeked_right_has_details (u i : Z) (d : db) :
  ids_increasing d →
  get_unused_message_right u d = Some i →
  ∃ v o n, get_message_right_details i d = Some (u, v, o, n).
Proof.
  intros Hinc. rewrite get_unused_of_rows, details_of_rows.
  destruct (head _) as [r|] eqn:Hr; [|done]. simpl. intros [= <-].
  apply head_Some_elem_of in Hr. rewrite order_by_desc_perm in Hr.
  apply list_elem_of_filter in Hr as [[Hu _] Hr].
  rewrite (filter_unique_id _ r) by (done || by apply ids_increasing_nodup).
  rewrite Hu. by eexists _, _, _.
Qed.

Lemma peeked_right_has_details_witness :
  ∃ v o n, get_message_right_details 1 db_two_rights = Some (7, v, o, n).
Proof.
  apply (peeked_right_has_details 7 1 db_two_rights).
  - apply (bool_decide_unpack _). by vm_compute.
  - reflexivity.
Defined.

(** ** More on the rank-change detector *)

Lemma find_position_ext (u i : Z) (a b : list (Z * string * Z)) :
  uid_of <$> a = uid_of <$> b → find_position u i a = find_position u i b.
Proof.
  revert i b. induction a as [|[[ua na] sa] a IH]; intros i [|[[ub nb] sb] b];
    csimpl; try done.
  unfold uid_of at 1 3. simpl. intros [= -> Hrest].
  destruct (ub =? u); [done|]. by apply IH.
Qed.

(** X17. A position change [(old, new)] the detector returns is within
    bounds: [new] is a position of the current snapshot, [old] is a position
    of the previous snapshot or one past its end, and [new < old] unless the
    user is absent from the previous snapshot. *)
Theorem position_change_bounds (user_id : Z)
    (old_leaderboard new_leaderboard : list (Z * string * Z)) (o n : Z) :
  get_user_position_change user_id old_leaderboard new_leaderboard = Some (o, n) →
  1 ≤ n ≤ Z.of_nat (length new_leaderboard) ∧
  1 ≤ o ≤ Z.of_nat (length old_leaderboard) + 1 ∧
  (n < o ∨ (absent user_id old_leaderboard ∧
            o = Z.of_nat (length old_leaderboard) + 1)).
Proof.
  unfold get_user_position_change.
  destruct (find_position user_id 1 old_leaderboard) as [o0|] eqn:Hold;
    destruct (find_position user_id 1 new_leaderboard) as [n0|] eqn:Hnew;
    try done.
  - destruct (Z.ltb_spec n0 o0); [|done]. intros [= <- <-].
    apply find_position_Some in Hold as (ko & -> & Hko & _).
    apply find_position_Some in Hnew as (kn & -> & Hkn & _).
    apply lookup_lt_Some in Hko, Hkn. rewrite length_fmap in Hko, Hkn.
    split_and!; lia.
  - intros [= <- <-].
    apply find_position_Some in Hnew as (kn & -> & Hkn & _).
    apply lookup_lt_Some in Hkn. rewrite length_fmap in Hkn.
    apply find_position_None in Hold.
    split_and!; try lia. by right.
Qed.

Lemma position_change_bounds_witness :
  1 ≤ 1 ≤ Z.of_nat (length current_bac) ∧
  1 ≤ 2 ≤ Z.of_nat (length previous_abc) + 1 ∧
  (1 < 2 ∨ (absent 2 previous_abc ∧ 2 = Z.of_nat (length previous_abc) + 1)).
Proof. apply (position_change_bounds 2 previous_abc current_bac). reflexivity. Defined.

Lemma position_change_same_order (user_id : Z)
    (old_leaderboard new_leaderboard : list (Z * string * Z)) :
  uid_of <$> old_leaderboard = uid_of <$> new_leaderboard →
  get_user_position_change user_id old_leaderboard new_leaderboard = None.
Proof.
  intros Hsame. unfold get_user_position_change.
  rewrite (find_position_ext user_id 1 _ _ Hsame).
  destruct (find_position user_id 1 new_leaderboard) as [n|]; [|done].
  by rewrite Z.ltb_irrefl.
Qed.

(** X18. The detector looks at the order of the users only: when the two
    snapshots list the same users in the same order, whatever their names
    and scores, it reports no change for anyone. *)
Theorem same_order_no_change (user_id : Z)
    (old_leaderboard new_leaderboard : list (Z * string * Z)) :
  uid_of <$> old_leaderboard = uid_of <$> new_leaderboard →
  get_user_position_change user_id old_leaderboard new_leaderboard = None.
Proof. apply position_change_same_order. Qed.

Lemma same_order_no_change_witness :
  get_user_position_change 1 [(1, "A", 10); (2, "B", 8)]
    [(1, "A", 11); (2, "B", 8)] = None.
Proof. apply same_order_no_change. reflexivity. Defined.

Lemma find_outranked_passed (user_id new_pos : Z)
    (new_leaderboard previous : list (Z * string * Z)) (uid : Z) (name : string) :
  find_outranked user_id new_pos new_leaderboard None previous = Some (uid, name) →
  ∃ score, (uid, name, score) ∈ previous ∧
           passed user_id new_pos new_leaderboard (uid, name, score).
Proof.
  rewrite find_outranked_last.
  destruct (last _) as [[[uid' name'] score]|] eqn:Hlast; simpl; [|done].
  intros [= -> ->].
  apply last_Some_elem_of, list_elem_of_filter in Hlast as [[Hne Hbelow] Hin].
  exists score. split; [done|]. split; [done|].
  apply Is_true_true, ranked_below_spec in Hbelow. done.
Qed.

(** X19. The user the scan of [check_leaderboard_changes] reports is an
    entry of the previous snapshot, is not the acting user, and is listed in
    the current snapshot at a position greater than the new rank; the scan
    reports nobody exactly when no entry of the previous snapshot is like
    that. *)
Theorem find_outranked_sound_complete (user_id new_pos : Z)
    (new_leaderboard previous : list (Z * string * Z)) :
  match find_outranked user_id new_pos new_leaderboard None previous with
  | Some (uid, name) =>
      ∃ score, (uid, name, score) ∈ previous ∧
               passed user_id new_pos new_leaderboard (uid, name, score)
  | None => ∀ e, e ∈ previous → ¬ passed user_id new_pos new_leaderboard e
  end.
Proof.
  destruct (find_outranked _ _ _ _ _) as [[uid name]|] eqn:Hfound.
  { by apply find_outranked_passed. }
  rewrite find_outranked_last in Hfound.
  destruct (last _) as [[[uid name] score]|] eqn:Hlast; [done|].
  - apply last_None in Hlast. intros e He [Hne Hbelow].
    assert (e ∈ filter (λ e, uid_of e ≠ user_id ∧
                             ranked_below (uid_of e) new_pos 1 new_leaderboard)
                       previous) as Hin.
    { apply list_elem_of_filter. split; [|done]. split; [done|].
      by apply Is_true_true, ranked_below_spec. }
    rewrite Hlast in Hin. by apply elem_of_nil in Hin.
Qed.

(** ** More on the handlers *)

(** What [check_leaderboard_changes] can do. *)
Lemma check_leaderboard_changes_cases (user_id now : Z) (h : handlers) (d : db) :
  let new_leaderboard := get_daily_leaderboard_with_ids 10 d in
  check_leaderboard_changes user_id now h d
    = (mk_handlers new_leaderboard (chat_id h), d, None) ∨
  ∃ old_pos new_pos outranked name chat,
    last_leaderboard h ≠ [] ∧
    get_user_position_change user_id (last_leaderboard h) new_leaderboard
      = Some (old_pos, new_pos) ∧
    find_outranked user_id new_pos new_leaderboard None (last_leaderboard h)
      = Some (outranked, name) ∧
    chat_id h = Some chat ∧ chat ≠ 0 ∧
    check_leaderboard_changes user_id now h d
      = (mk_handlers new_leaderboard (chat_id h),
         (store_special_message_right user_id outranked old_pos new_pos now d).1,
         Some (mk_overtake user_id outranked name old_pos new_pos chat)).
Proof.
  intros new_leaderboard. unfold check_leaderboard_changes.
  fold new_leaderboard.
  destruct (last_leaderboard h) as [|e rest] eqn:Hlast; [by left|].
  destruct (get_user_position_change _ _ _) as [[old_pos new_pos]|] eqn:Hchange;
    [|by left].
  destruct (find_outranked _ _ _ _ _) as [[outranked name]|] eqn:Hout; [|by left].
  destruct (chat_id h) as [chat|] eqn:Hchat; [|by left].
  destruct (Z.eqb_spec chat 0); [by left|].
  right. by exists old_pos, new_pos, outranked, name, chat.
Qed.

(** X20. [check_leaderboard_changes] always remembers the leaderboard it
    has just read and keeps the chat.  When it sends nothing the database is
    untouched.  When it sends an overtake, the previous snapshot was not
    empty, the chat is set, the detector returned the two positions sent,
    the outranked user is somebody else taken from the previous snapshot,
    and the only write is one new unconsumed right whose details are the
    ones sent. *)
Theorem check_leaderboard_changes_effect (user_id now : Z) (h : handlers) (d : db) :
  let r := check_leaderboard_changes user_id now h d in
  last_leaderboard r.1.1 = get_daily_leaderboard_with_ids 10 d ∧
  chat_id r.1.1 = chat_id h ∧
  match r.2 with
  | None => r.1.2 = d
  | Some ev =>
      last_leaderboard h ≠ [] ∧
      chat_id h = Some (sent_to ev) ∧ sent_to ev ≠ 0 ∧
      acting_user ev = user_id ∧ outranked_id ev ≠ user_id ∧
      (∃ score, (outranked_id ev, outranked_name ev, score) ∈ last_leaderboard h) ∧
      get_user_position_change user_id (last_leaderboard h)
        (get_daily_leaderboard_with_ids 10 d) = Some (from_pos ev, to_pos ev) ∧
      r.1.2 = (store_special_message_right user_id (outranked_id ev)
                 (from_pos ev) (to_pos ev) now d).1 ∧
      get_message_right_details (next_id id (rights d)) r.1.2
        = Some (user_id, outranked_id ev, from_pos ev, to_pos ev)
  end.
Proof.
  intros r. subst r.
  destruct (check_leaderboard_changes_cases user_id now h d)
    as [->|(o & n & v & name & chat & Hlast & Hchange & Hout & Hchat & Hnz & ->)];
    simpl; [done|].
  apply find_outranked_passed in Hout as (score & Hin & Hne & _).
  split_and!; try done.
  - by exists score.
  - apply details_after_store.
Qed.

(** X27. A second [check_leaderboard_changes] with no score change in
    between sends nothing and writes nothing, whoever it is run for: the
    snapshot remembered by the first call is the leaderboard the second one
    reads. *)
Theorem second_check_is_silent (user_id user_id' now now' : Z)
    (h : handlers) (d : db) :
  let r := check_leaderboard_changes user_id now h d in
  let r' := check_leaderboard_changes user_id' now' r.1.1 r.1.2 in
  r'.2 = None ∧ r'.1.2 = r.1.2 ∧ last_leaderboard r'.1.1 = last_leaderboard r.1.1.
Proof.
  intros r r'.
  assert (last_leaderboard r.1.1 = get_daily_leaderboard_with_ids 10 r.1.2)
    as Hlast.
  { subst r.
    by destruct (check_leaderboard_changes_cases user_id now h d)
      as [->|(o & n & v & name & c & _ & _ & _ & _ & _ & ->)]. }
  subst r'. generalize dependent r. intros r Hlast.
  destruct (check_leaderboard_changes_cases user_id' now' r.1.1 r.1.2)
    as [->|(o & n & v & name & c & _ & Hchange & _)]; simpl; [done|].
  rewrite position_change_same_order in Hchange; [done|]. by rewrite Hlast.
Qed.

(** X21. [solved_command], for a sender with a Telegram id whose daily
    count is not above the lifetime count, registers the sender and then
    does one of two things.  When the delta and the new lifetime count are
    within the store's 64-bit range, the sender is registered under the names
    given, both counters are [max(0, old + delta)] (an unknown sender starts
    from 0), the chat is remembered, and the snapshot kept for the next
    comparison is the daily leaderboard of the database the command leaves
    behind.  Otherwise the update fails: only the registration is done,
    nothing is sent, and the remembered chat and snapshot are as before. *)
Theorem solved_command_effect (user_id : Z)
    (username first_name last_name : option string)
    (questions_count chat now : Z) (h : handlers) (d : db) :
  in_int64 user_id = true →
  default 0 (daily_stats d !! user_id) ≤ default 0 (lifetime_stats d !! user_id) →
  let r := solved_command user_id username first_name last_name
             questions_count chat now h d in
  (storable (default 0 (lifetime_stats d !! user_id)) questions_count = true →
   users r.1.2 !! user_id = Some (mk_user username first_name last_name) ∧
   get_user_stats user_id r.1.2 =
     (Z.max 0 (default 0 (daily_stats d !! user_id) + questions_count),
      Z.max 0 (default 0 (lifetime_stats d !! user_id) + questions_count)) ∧
   chat_id r.1.1 = Some chat ∧
   last_leaderboard r.1.1 = get_daily_leaderboard_with_ids 10 r.1.2) ∧
  (storable (default 0 (lifetime_stats d !! user_id)) questions_count = false →
   r = (h, (register_user user_id username first_name last_name d).1, None)).
Proof.
  intros _ _ r. subst r. unfold solved_command.
  set (d1 := (register_user user_id username first_name last_name d).1).
  assert (users d1 !! user_id = Some (mk_user username first_name last_name)
          ∧ default 0 (daily_stats d1 !! user_id)
            = default 0 (daily_stats d !! user_id)
          ∧ default 0 (lifetime_stats d1 !! user_id)
            = default 0 (lifetime_stats d !! user_id)) as (Hu1 & Hd1 & Hl1).
  { subst d1. unfold register_user. destruct (users d !! user_id); simpl;
      rewrite lookup_insert_eq, ?insert_or_ignore_default; done. }
  rewrite <- Hl1. split.
  - intros Hstorable.
    destruct (update_known_user user_id questions_count d1 ltac:(by eexists)
                Hstorable) as (Hok & Hus & Hlife & Hdaily).
    destruct (update_solved_questions user_id questions_count d1) as [d2 ok].
    simpl in *. subst ok.
    assert (users d2 !! user_id = Some (mk_user username first_name last_name) ∧
            get_user_stats user_id d2 =
              (Z.max 0 (default 0 (daily_stats d !! user_id) + questions_count),
               Z.max 0 (default 0 (lifetime_stats d1 !! user_id) + questions_count)))
      as [Hu2 Hs2].
    { unfold get_user_stats. rewrite Hus, Hu1, Hlife, Hdaily, !lookup_insert_eq.
      simpl. by rewrite Hd1. }
    destruct (check_leaderboard_changes_cases user_id now
                (mk_handlers (last_leaderboard h) (Some chat)) d2)
      as [->|(o & n & v & name & c & _ & _ & _ & _ & _ & ->)]; simpl; done.
  - intros Hno. by rewrite (update_not_storable _ _ _ Hno).
Qed.

Lemma solved_command_effect_witness :
  get_user_stats 2
    (solved_command 2 (Some "B") None None 3 100 0 handlers_abc db_abc).1.2
    = (11, 11) ∧
  solved_command 2 (Some "B") None None 9223372036854775808 100 0
    handlers_abc db_abc
    = (handlers_abc, (register_user 2 (Some "B") None None db_abc).1, None).
Proof.
  split.
  - destruct (solved_command_effect 2 (Some "B") None None 3 100 0
                handlers_abc db_abc) as [Hstored _].
    + reflexivity.
    + by vm_compute.
    + by destruct (Hstored eq_refl) as (_ & -> & _).
  - apply (solved_command_effect 2 (Some "B") None None 9223372036854775808
             100 0 handlers_abc db_abc).
    + reflexivity.
    + by vm_compute.
    + reflexivity.
Defined.

Lemma rights_after_use (i v : Z) (d : db) (r : message_right) :
  unconsumed_right_of v (use_message_right i d).1 r ↔
  unconsumed_right_of v d r ∧ id r ≠ i.
Proof.
  unfold unconsumed_right_of. rewrite rights_use, list_elem_of_fmap. split.
  - intros ((r0 & -> & Hr0) & Hv & Hfree). unfold mark_used in *.
    destruct (Z.eqb_spec (id r0) i); [done|]. done.
  - intros ((Hr & Hv & Hfree) & Hid). split; [|done].
    exists r. split; [|done]. unfold mark_used.
    by rewrite (proj2 (Z.eqb_neq _ _) Hid).
Qed.

(** X22. A plain message from a user without an unconsumed right does
    nothing.  From a user with one (no right having id 0), it does nothing
    either while no chat is remembered: the right stays unconsumed.  With a
    remembered chat, the text is broadcast unchanged to that chat under the
    sender's display name, and exactly the right the lookup returned is
    consumed: the lookup does not return it again, and every other right
    of every user keeps its state. *)
Theorem handle_special_message_effect (user : tg_user) (message : string)
    (h : handlers) (d : db) :
  Forall (λ r, id r ≠ 0) (rights d) →
  match get_unused_message_right (tg_id user) d, chat_id h with
  | None, _ => handle_special_message user message h d = (d, None)
  | Some _, None => handle_special_message user message h d = (d, None)
  | Some i, Some chat =>
      (∃ name,
         handle_special_message user message h d
         = ((use_message_right i d).1,
            Some (mk_special_message (Some chat) (get_user_display_name user)
                    name message))) ∧
      get_unused_message_right (tg_id user) (use_message_right i d).1 ≠ Some i ∧
      ∀ v r, unconsumed_right_of v (use_message_right i d).1 r ↔
             unconsumed_right_of v d r ∧ id r ≠ i
  end.
Proof.
  intros Hnz. unfold handle_special_message.
  destruct (get_unused_message_right (tg_id user) d) as [i|] eqn:Hpeek; [|done].
  assert (∃ r, r ∈ rights d ∧ id r = i) as (r & Hr & Hid).
  { rewrite get_unused_of_rows in Hpeek.
    destruct (head _) as [r|] eqn:Hhead; [|done]. simpl in Hpeek.
    apply head_Some_elem_of in Hhead. rewrite order_by_desc_perm in Hhead.
    apply list_elem_of_filter in Hhead as [_ ?]. exists r. split; congruence. }
  assert (i ≠ 0) as Hi.
  { eapply Forall_forall in Hnz; [|exact Hr]. congruence. }
  rewrite (proj2 (Z.eqb_neq _ _) Hi), details_of_rows.
  destruct (filter (λ r, id r = i) (rights d)) as [|r0 rest] eqn:Hfilter.
  { assert (r ∈ filter (λ r, id r = i) (rights d)) as Hin
      by (by apply list_elem_of_filter).
    rewrite Hfilter in Hin. by apply elem_of_nil in Hin. }
  destruct (chat_id h) as [chat|]; [|done].
  split_and!.
  - by eexists.
  - apply consumed_not_returned, use_message_right_consumes.
    apply list_elem_of_fmap. by exists r.
  - intros v r'. apply rights_after_use.
Qed.

Lemma handle_special_message_effect_witness :
  (∃ name,
     handle_special_message user_b "hello" handlers_abc db_abc_right
     = ((use_message_right 1 db_abc_right).1,
        Some (mk_special_message (Some 100)
                (get_user_display_name user_b) name "hello"))) ∧
  get_unused_message_right 2 (use_message_right 1 db_abc_right).1 ≠ Some 1 ∧
  ∀ v r, unconsumed_right_of v (use_message_right 1 db_abc_right).1 r ↔
         unconsumed_right_of v db_abc_right r ∧ id r ≠ 1.
Proof.
  apply (handle_special_message_effect user_b "hello" handlers_abc db_abc_right).
  apply (bool_decide_unpack _). by vm_compute.
Defined.

(** [handle_message] ignores empty texts and commands (texts that start
    with "/"), even when the sender holds an unconsumed right. *)
Lemma handle_message_ignores_commands (user : tg_user) (rest : string)
    (h : handlers) (d : db) :
  handle_message user "" h d = (d, None) ∧
  handle_message user ("/" +:+ rest) h d = (d, None).
Proof. split; reflexivity. Qed.

(** X23. [send_daily_champion_message] writes only to a remembered chat.
    The champion it names is a registered user with a positive daily score
    whose name passes the filter, and no such user has a larger score; it
    announces that nobody took part exactly when there is no such user. *)
Theorem champion_has_top_score (h : handlers) (d : db) :
  match chat_id h with
  | None => send_daily_champion_message h d = None
  | Some chat =>
      if chat =? 0 then send_daily_champion_message h d = None
      else
        (∃ u x q,
           send_daily_champion_message h d
             = Some (chat, ChampionIs (display_name x)) ∧
           eligible (daily_stats d) (users d) u x q ∧
           ∀ u' x' q', eligible (daily_stats d) (users d) u' x' q' → q' ≤ q) ∨
        (send_daily_champion_message h d = Some (chat, NoParticipants) ∧
         ∀ u x q, ¬ eligible (daily_stats d) (users d) u x q)
  end.
Proof.
  unfold send_daily_champion_message, get_daily_leaderboard.
  destruct (chat_id h) as [chat|]; [|done].
  destruct (chat =? 0); [done|].
  pose proof (leaderboard_rows_length (daily_stats d) (users d) 1) as Hlen.
  destruct (leaderboard_rows (daily_stats d) (users d) 1)
    as [|[[u x] q] rest] eqn:Hrows; csimpl.
  - right. split; [done|]. intros u x q Helig.
    destruct (leaderboard_rows_top _ _ 1 u x q eq_refl Helig) as [Hin|(_ & Hfull & _)].
    + rewrite Hrows in Hin. by apply elem_of_nil in Hin.
    + rewrite Hrows in Hfull. simpl in Hfull. lia.
  - left. exists u, x, q. split; [done|].
    assert (rest = []) as ->.
    { destruct Hlen as [|Hlen]; [lia|]. simpl in Hlen. destruct rest; [done|].
      simpl in Hlen. lia. }
    split.
    + apply (leaderboard_rows_elem _ _ 1 (u, x, q)). rewrite Hrows.
      apply list_elem_of_here.
    + intros u' x' q' Helig.
      destruct (leaderboard_rows_top _ _ 1 u' x' q' eq_refl Helig) as [Hin|(_ & _ & Htop)];
        rewrite Hrows in *.
      * apply list_elem_of_singleton in Hin. by simplify_eq.
      * by apply Forall_cons in Htop as [? _].
Qed.

(** X24. [reset_daily_command] refuses a user only when the admin list is
    not empty and does not contain the user, and then changes nothing; with
    an empty admin list, or for a listed user, it resets, reports success,
    and leaves every daily counter at 0. *)
Theorem reset_daily_command_permission (admin_ids : list Z) (user_id today : Z)
    (d : db) :
  (admin_ids ≠ [] ∧ user_id ∉ admin_ids →
   reset_daily_command admin_ids user_id today d = (d, ResetDenied)) ∧
  (admin_ids = [] ∨ user_id ∈ admin_ids →
   reset_daily_command admin_ids user_id today d
     = ((reset_daily_stats today d).1, ResetDone) ∧
   ∀ u, (get_user_stats u (reset_daily_command admin_ids user_id today d).1).1 = 0).
Proof.
  unfold reset_daily_command. split.
  - intros [Hne Hout]. by rewrite !bool_decide_eq_true_2.
  - intros Hallowed.
    assert (bool_decide (user_id ∉ admin_ids) && bool_decide (admin_ids ≠ [])
            = false) as ->.
    { apply andb_false_iff. destruct Hallowed as [->|Hin].
      - right. apply bool_decide_eq_false_2. intros Hne. by apply Hne.
      - left. apply bool_decide_eq_false_2. intros Hout. by apply Hout. }
    simpl. split; [done|]. intros u. unfold get_user_stats. simpl.
    destruct (users d !! u); simpl; [|done].
    rewrite lookup_fmap. by destruct (daily_stats d !! u).
Qed.




(** ** utils.py *)

Lemma pretty_N_char_digit (k : N) :
  (k < 10)%N →
  is_digit (pretty_N_char k) = true ∧
  is_space (pretty_N_char k) = false ∧
  Z.of_N (N_of_ascii (pretty_N_char k)) - 48 = Z.of_N k.
Proof.
  intros Hk.
  assert (k = 0 ∨ k = 1 ∨ k = 2 ∨ k = 3 ∨ k = 4 ∨ k = 5 ∨ k = 6 ∨ k = 7
          ∨ k = 8 ∨ k = 9)%N as Hcases by lia.
  repeat (destruct Hcases as [->|Hcases]; [by vm_compute|]).
  subst. by vm_compute.
Qed.

Lemma digits_value_pretty_N_go (x : N) (s : string) :
  digits_value 0 (pretty_N_go x s) = digits_value (Z.of_N x) s.
Proof.
  revert s. induction (N.lt_wf_0 x) as [x _ IH]; intros s.
  assert (x = 0 ∨ 0 < x)%N as [->|Hpos] by lia; [done|].
  rewrite pretty_N_go_step by done.
  rewrite IH by (by apply N.div_lt). simpl.
  destruct (pretty_N_char_digit (x `mod` 10)) as (-> & _ & ->).
  { by apply N.mod_lt. }
  f_equal. pose proof (N.div_mod x 10 ltac:(done)). lia.
Qed.

Lemma no_space_pretty_N_go (x : N) (s : string) :
  Forall (λ c, is_space c = false) (String.list_ascii_of_string s) →
  Forall (λ c, is_space c = false) (String.list_ascii_of_string (pretty_N_go x s)).
Proof.
  revert s. induction (N.lt_wf_0 x) as [x _ IH]; intros s Hs.
  assert (x = 0 ∨ 0 < x)%N as [->|Hpos] by lia; [done|].
  rewrite pretty_N_go_step by done. apply IH; [by apply N.div_lt|].
  simpl. constructor; [|done].
  by destruct (pretty_N_char_digit (x `mod` 10)) as (_ & -> & _);
    [apply N.mod_lt|].
Qed.

Lemma no_space_pretty_Z (z : Z) :
  Forall (λ c, is_space c = false) (String.list_ascii_of_string (pretty z)).
Proof.
  destruct z as [|p|p]; unfold pretty, pretty_Z.
  - by repeat constructor.
  - unfold pretty, pretty_positive, pretty, pretty_N.
    rewrite decide_False by done. apply no_space_pretty_N_go. constructor.
  - unfold pretty, pretty_positive, pretty, pretty_N.
    rewrite decide_False by done. simpl. constructor; [done|].
    apply no_space_pretty_N_go. constructor.
Qed.

Lemma lstrip_spaces (ws s : string) :
  Forall (λ c, is_space c = true) (String.list_ascii_of_string ws) →
  lstrip (ws +:+ s) = lstrip s.
Proof.
  induction ws as [|c ws IH]; simpl; [done|].
  intros [Hc Hws]%Forall_cons. rewrite Hc. by apply IH.
Qed.

Lemma rstrip_spaces (ws : string) :
  Forall (λ c, is_space c = true) (String.list_ascii_of_string ws) → rstrip ws = "".
Proof.
  induction ws as [|c ws IH]; simpl; [done|].
  intros [Hc Hws]%Forall_cons. by rewrite IH, Hc.
Qed.

Lemma rstrip_no_space (s ws : string) :
  Forall (λ c, is_space c = false) (String.list_ascii_of_string s) →
  Forall (λ c, is_space c = true) (String.list_ascii_of_string ws) →
  rstrip (s +:+ ws) = s.
Proof.
  intros Hs Hws. induction s as [|c s IH]; simpl.
  - by apply rstrip_spaces.
  - apply Forall_cons in Hs as [Hc Hs]. rewrite IH by done.
    destruct s; [by rewrite Hc|done].
Qed.

Lemma strip_padded (ws1 s ws2 : string) :
  Forall (λ c, is_space c = true) (String.list_ascii_of_string ws1) →
  Forall (λ c, is_space c = false) (String.list_ascii_of_string s) →
  Forall (λ c, is_space c = true) (String.list_ascii_of_string ws2) →
  strip (ws1 +:+ s +:+ ws2) = s.
Proof.
  intros Hws1 Hs Hws2. unfold strip. rewrite lstrip_spaces by done.
  destruct s as [|c s]; simpl.
  - change ("" +:+ ws2) with ws2.
    assert (lstrip ws2 = "") as ->; [|done].
    clear -Hws2. induction ws2 as [|c ws IH]; simpl; [done|].
    apply Forall_cons in Hws2 as [-> ?]. by apply IH.
  - apply Forall_cons in Hs as [Hc Hs]. rewrite Hc.
    apply (rstrip_no_space (String c s)); [by constructor|done].
Qed.

(** X26. [parse_number] reads back what [str] prints: for every integer
    [z] of at most 4300 decimal digits (the longest the interpreter converts
    by default), the decimal text of [z], with any amount of white space
    before and after it, parses to [z]. *)
Theorem parse_number_round_trip (z : Z) (before after : string) :
  Z.abs z < 10 ^ 4300 →
  Forall (λ c, is_space c = true) (String.list_ascii_of_string before) →
  Forall (λ c, is_space c = true) (String.list_ascii_of_string after) →
  parse_number (before +:+ pretty z +:+ after) = Some z.
Proof.
  intros _ Hbefore Hafter. unfold parse_number.
  rewrite strip_padded by (done || apply no_space_pretty_Z).
  destruct z as [|p|p]; [done| |].
  - unfold pretty, pretty_Z, pretty, pretty_positive, pretty, pretty_N.
    rewrite decide_False by done.
    pose proof (digits_value_pretty_N_go (N.pos p) "") as Hvalue.
    destruct (pretty_N_go (N.pos p) "") as [|c rest]; [done|].
    destruct (Ascii.eqb_spec c "-") as [->|_]; [done|]. exact Hvalue.
  - unfold pretty, pretty_Z, pretty, pretty_positive, pretty, pretty_N.
    rewrite decide_False by done.
    pose proof (digits_value_pretty_N_go (N.pos p) "") as Hvalue.
    change ("-" +:+ pretty_N_go (N.pos p) "")
      with (String "-" (pretty_N_go (N.pos p) "")).
    cbv beta iota. rewrite Ascii.eqb_refl.
    destruct (pretty_N_go (N.pos p) "") as [|c rest]; [done|].
    by rewrite Hvalue.
Qed.

Lemma parse_number_round_trip_witness :
  parse_number (" " +:+ pretty (-1200) +:+ "  ") = Some (-1200).
Proof.
  apply parse_number_round_trip.
  - by vm_compute.
  - by repeat constructor.
  - by repeat constructor.
Defined.
